(** * libfm-qt: the file-info job and the file dialog's accept flow

    A shallow embedding of [src/core/fileinfojob.cpp] ([Fm2::FileInfoJob])
    and of the file dialog ([Fm::FileDialog]), with the statements of the
    specification about them.

    Conventions.  A [QString] is a [string]; a [FilePath] and a [QUrl] are
    identified with their URI text.  Widgets are records of the properties
    the dialog reads and writes.  Signals, message boxes, calls into the
    [QDialog] base class and the start of a job are recorded, in program
    order, in an effect log.  The collaborators that are not part of the
    repository (GIO, the [FileInfo] constructor, [QRegExp]) are taken as
    parameters, gathered in the class [Toolkit]. *)

From Stdlib Require Import Ascii String ZArith.
From stdpp Require Import base list strings.
From Equations Require Import Equations.
From Equations.Prop Require Import Logic.

Open Scope string_scope.
Open Scope list_scope.
Open Scope nat_scope.

(** ** Values shared by the job and the dialog *)

Definition QString := string.
Definition FilePath := string.
Definition QUrl := string.

(** [Fm::FileInfo], through the accessors the sources call. *)
Record FileInfo := mkFileInfo {
  path : FilePath;
  isDir : bool;
  isShortcut : bool;
  displayName : QString
}.

(** ** [Fm2::FileInfoJob] *)

Module FileInfoJob.

(** The signals of the job. *)
Inductive Signal :=
| gotInfo (p : FilePath) (fileInfo : FileInfo)
| finished.

(** The job object.  [emitted] is the list of signals sent so far and
    [polls] counts the calls of [isCancelled()] made so far. *)
Record Job := mkJob {
  paths_ : list FilePath;
  results_ : list FileInfo;
  emitted : list Signal;
  polls : nat
}.

Definition push_back (fileInfo : FileInfo) (j : Job) : Job :=
  mkJob (paths_ j) (results_ j ++ [fileInfo]) (emitted j) (polls j).

Definition emit (s : Signal) (j : Job) : Job :=
  mkJob (paths_ j) (results_ j) (emitted j ++ [s]) (polls j).

Definition polled (j : Job) : Job :=
  mkJob (paths_ j) (results_ j) (emitted j) (S (polls j)).

Section Run.

(** [g_file_query_info] followed by [std::make_shared<FileInfo>(inf)]:
    the record built for a path, whatever the query answered. *)
Variable query_info : FilePath → FileInfo.

(** The cancellation flag is set from another thread.  [cancelledAt n]
    is what the call number [n] of [isCancelled()] reads. *)
Variable cancelledAt : nat → bool.

Definition isCancelled (j : Job) : bool * Job :=
  (cancelledAt (polls j), polled j).

(** One iteration of the range-for of [run()] (lines 8-16). *)
Definition visit (j : Job) (p : FilePath) : Job :=
  let '(c, j) := isCancelled j in
  if negb c then
    let fileInfo := query_info p in
    let j := push_back fileInfo j in
    emit (gotInfo p fileInfo) j
  else j.

(** [FileInfoJob::run()]. *)
Definition run (j : Job) : Job :=
  let j := foldl visit j (paths_ j) in
  emit finished j.

(** The loop the specification describes: it leaves at the first check
    that reads a set flag. *)
Fixpoint scan_until_cancelled (ps : list FilePath) (j : Job) : Job :=
  match ps with
  | [] => j
  | p :: ps' =>
      let '(c, j) := isCancelled j in
      if c then j
      else
        let fileInfo := query_info p in
        scan_until_cancelled ps' (emit (gotInfo p fileInfo) (push_back fileInfo j))
  end.

Definition run_early_exit (j : Job) : Job :=
  emit finished (scan_until_cancelled (paths_ j) j).

(** The paths of [ps] at the positions whose check reads a clear flag,
  when position [0] is checked by poll number [n]. *)
Definition queried (n : nat) (ps : list FilePath) : list FilePath :=
  (filter (λ ip, cancelledAt (n + ip.1) = false) (imap pair ps)).*2.

Definition monotone_flag : Prop :=
  ∀ m n, m ≤ n → cancelledAt m = true → cancelledAt n = true.

End Run.

End FileInfoJob.

(** ** [QString] operations used by the dialog *)

Module QStr.

Definition isEmpty (s : QString) : bool :=
  match s with EmptyString => true | String _ _ => false end.

(** [QString::indexOf(ch, from)]: the position of the first [ch] at or
    after [from], or [-1]. *)
Definition indexOf (ch : ascii) (from : nat) (s : QString) : Z :=
  match String.index from (String ch EmptyString) s with
  | Some i => Z.of_nat i
  | None => (-1)%Z
  end.

Fixpoint lastIndexOf_from (ch : ascii) (i : nat) (found : Z) (s : QString) : Z :=
  match s with
  | EmptyString => found
  | String a s' =>
      lastIndexOf_from ch (S i) (if Ascii.eqb a ch then Z.of_nat i else found) s'
  end.

(** [QString::lastIndexOf(ch)]: the position of the last [ch], or [-1]. *)
Definition lastIndexOf (ch : ascii) (s : QString) : Z :=
  lastIndexOf_from ch 0 (-1)%Z s.

(** [QString::mid(position, n)] for a position inside the string; a
    negative [n] takes the rest of the string. *)
Definition mid (position n : Z) (s : QString) : QString :=
  if (n <? 0)%Z then
    String.substring (Z.to_nat position) (String.length s) s
  else
    String.substring (Z.to_nat position) (Z.to_nat n) s.

(** [QChar::isSpace] on the characters below 256: space, tab to
    carriage return, next line (U+0085) and no-break space (U+00A0). *)
Definition isSpace (a : ascii) : bool :=
  let n := nat_of_ascii a in
  (n =? 32) || ((9 <=? n) && (n <=? 13)) || (n =? 133) || (n =? 160).

(** The pieces of [s] between the characters selected by [sep], empty
    pieces kept. *)
Fixpoint pieces (sep : ascii → bool) (s : QString) : list QString :=
  match s with
  | EmptyString => [EmptyString]
  | String a s' =>
      if sep a then EmptyString :: pieces sep s'
      else
        match pieces sep s' with
        | w :: ws => String a w :: ws
        | [] => [String a EmptyString]
        end
  end.

(** [QString::split(ch)], with the default [KeepEmptyParts]. *)
Definition split (ch : ascii) (s : QString) : list QString :=
  pieces (λ a, Ascii.eqb a ch) s.

(** [QString::simplified()]: white space removed at both ends, and every
    inner run of white space replaced by one space. *)
Definition simplified (s : QString) : QString :=
  String.concat " " (filter (λ w, w ≠ EmptyString) (pieces isSpace s)).

(** [tr(fmt).arg(a)] for a format with the single place marker [%1],
    given as the text before and after the marker. *)
Definition arg1 (before a after : QString) : QString :=
  before +:+ a +:+ after.

End QStr.

(** ** Enumerations of the toolkit *)

(** [QFileDialog::FileMode] *)
Inductive FileMode :=
| AnyFile | ExistingFile | Directory | ExistingFiles | DirectoryOnly.

(** [QFileDialog::AcceptMode] *)
Inductive AcceptMode := AcceptOpen | AcceptSave.

(** [QFileDialog::DialogLabel] *)
Inductive DialogLabel := LookIn | FileName | FileType | Accept | Reject.

(** [Fm::FolderView::ViewMode] *)
Inductive ViewMode := IconMode | CompactMode | DetailedListMode | ThumbnailMode.

(** [QAbstractItemView::SelectionMode] *)
Inductive SelectionMode :=
| NoSelection | SingleSelection | MultiSelection
| ExtendedSelection | ContiguousSelection.

#[global] Instance FileMode_eq_dec : EqDecision FileMode.
Proof. solve_decision. Defined.
#[global] Instance DialogLabel_eq_dec : EqDecision DialogLabel.
Proof. solve_decision. Defined.
#[global] Instance ViewMode_eq_dec : EqDecision ViewMode.
Proof. solve_decision. Defined.
#[global] Instance SelectionMode_eq_dec : EqDecision SelectionMode.
Proof. solve_decision. Defined.

(** [Qt::CaseSensitivity] and [QRegExp::PatternSyntax] *)
Inductive CaseSensitivity := CaseInsensitive | CaseSensitive.
Inductive PatternSyntax := RegExp | Wildcard.

(** A [QRegExp], as its constructor arguments. *)
Record QRegExp := mkQRegExp {
  pattern : QString;
  caseSensitivity : CaseSensitivity;
  patternSyntax : PatternSyntax
}.

(** ** Widgets *)

(** [Fm::FolderView]: its view mode and the selection mode of its child
    view. *)
Record FolderView := mkFolderView {
  viewMode : ViewMode;
  selectionMode : SelectionMode
}.

(** The widgets of [Ui::FileDialog] the dialog reads or writes: the text
    of the three labels and of the two buttons of the button box, whether
    the Ok button is enabled, the text of the file-name entry, the current
    text of the file-type combo box, and the folder view. *)
Record Ui := mkUi {
  lookInLabel : QString;
  fileNameLabel : QString;
  fileTypeLabel : QString;
  okText : QString;
  cancelText : QString;
  okEnabled : bool;
  fileName : QString;
  fileTypeCombo : QString;
  folderView : FolderView
}.

(** ** Collaborators outside the repository *)

Class Toolkit := {
  (** [FilePath::child(name)] *)
  FilePath_child : FilePath → QString → FilePath;
  (** [FilePath::displayName()] *)
  FilePath_displayName : FilePath → QString;
  (** [FilePath::baseName()] *)
  FilePath_baseName : FilePath → QString;
  (** [QString::split(const QRegExp&)] *)
  QString_split_regexp : QRegExp → QString → list QString;
  (** [QRegExp::exactMatch(str)] *)
  QRegExp_exactMatch : QRegExp → QString → bool;
  (** [FolderView::setViewMode(mode)], which may replace the child view *)
  FolderView_setViewMode : ViewMode → FolderView → FolderView;
  (** the widgets as [Ui::FileDialog::setupUi] builds them *)
  setupUi : Ui
}.

(** ** [Fm::FileDialog] *)

Module FileDialog.

(** What the dialog does to the outside, in program order. *)
Inductive Effect :=
| QMessageBox_critical (title text : QString)
| filesSelected (urls : list QUrl)
| fileSelected (url : QUrl)
| filterSelected (filter : QString)
| directoryEntered
| proxyModel_invalidate
| FileInfoJob_runAsync (pathList : list FilePath)
| QDialog_accept
| QDialog_reject.

(** The finished job as the slot sees it through [sender()]. *)
Record FinishedJob := mkFinishedJob {
  isCancelled : bool;
  paths : list FilePath;
  files : list FileInfo
}.

(** The members of the dialog; [patterns_] is the member of the nested
    [FileDialogFilter], [effects] the log of what the dialog has done. *)
Record Dialog := mkDialog {
  ui : Ui;
  viewMode_ : ViewMode;
  fileMode_ : FileMode;
  acceptMode_ : AcceptMode;
  directoryPath_ : FilePath;
  selectedFiles_ : list QUrl;
  currentNameFilter_ : QString;
  defaultSuffix_ : QString;
  patterns_ : list QRegExp;
  effects : list Effect
}.

(** *** Assignments to one member or one widget property *)

Definition with_ui (f : Ui → Ui) (d : Dialog) : Dialog :=
  mkDialog (f (ui d)) (viewMode_ d) (fileMode_ d) (acceptMode_ d)
           (directoryPath_ d) (selectedFiles_ d) (currentNameFilter_ d)
           (defaultSuffix_ d) (patterns_ d) (effects d).

Definition set_viewMode_ (v : ViewMode) (d : Dialog) : Dialog :=
  mkDialog (ui d) v (fileMode_ d) (acceptMode_ d)
           (directoryPath_ d) (selectedFiles_ d) (currentNameFilter_ d)
           (defaultSuffix_ d) (patterns_ d) (effects d).

Definition set_fileMode_ (m : FileMode) (d : Dialog) : Dialog :=
  mkDialog (ui d) (viewMode_ d) m (acceptMode_ d)
           (directoryPath_ d) (selectedFiles_ d) (currentNameFilter_ d)
           (defaultSuffix_ d) (patterns_ d) (effects d).

Definition set_acceptMode_ (m : AcceptMode) (d : Dialog) : Dialog :=
  mkDialog (ui d) (viewMode_ d) (fileMode_ d) m
           (directoryPath_ d) (selectedFiles_ d) (currentNameFilter_ d)
           (defaultSuffix_ d) (patterns_ d) (effects d).

Definition set_directoryPath_ (p : FilePath) (d : Dialog) : Dialog :=
  mkDialog (ui d) (viewMode_ d) (fileMode_ d) (acceptMode_ d)
           p (selectedFiles_ d) (currentNameFilter_ d)
           (defaultSuffix_ d) (patterns_ d) (effects d).

Definition set_selectedFiles_ (l : list QUrl) (d : Dialog) : Dialog :=
  mkDialog (ui d) (viewMode_ d) (fileMode_ d) (acceptMode_ d)
           (directoryPath_ d) l (currentNameFilter_ d)
           (defaultSuffix_ d) (patterns_ d) (effects d).

Definition set_currentNameFilter_ (f : QString) (d : Dialog) : Dialog :=
  mkDialog (ui d) (viewMode_ d) (fileMode_ d) (acceptMode_ d)
           (directoryPath_ d) (selectedFiles_ d) f
           (defaultSuffix_ d) (patterns_ d) (effects d).

Definition set_patterns_ (ps : list QRegExp) (d : Dialog) : Dialog :=
  mkDialog (ui d) (viewMode_ d) (fileMode_ d) (acceptMode_ d)
           (directoryPath_ d) (selectedFiles_ d) (currentNameFilter_ d)
           (defaultSuffix_ d) ps (effects d).

(** Appends one entry to the effect log. *)
Definition perform (e : Effect) (d : Dialog) : Dialog :=
  mkDialog (ui d) (viewMode_ d) (fileMode_ d) (acceptMode_ d)
           (directoryPath_ d) (selectedFiles_ d) (currentNameFilter_ d)
           (defaultSuffix_ d) (patterns_ d) (effects d ++ [e]).

Definition set_lookInLabel (t : QString) (u : Ui) : Ui :=
  mkUi t (fileNameLabel u) (fileTypeLabel u) (okText u) (cancelText u)
       (okEnabled u) (fileName u) (fileTypeCombo u) (folderView u).

Definition set_fileNameLabel (t : QString) (u : Ui) : Ui :=
  mkUi (lookInLabel u) t (fileTypeLabel u) (okText u) (cancelText u)
       (okEnabled u) (fileName u) (fileTypeCombo u) (folderView u).

Definition set_fileTypeLabel (t : QString) (u : Ui) : Ui :=
  mkUi (lookInLabel u) (fileNameLabel u) t (okText u) (cancelText u)
       (okEnabled u) (fileName u) (fileTypeCombo u) (folderView u).

Definition set_okText (t : QString) (u : Ui) : Ui :=
  mkUi (lookInLabel u) (fileNameLabel u) (fileTypeLabel u) t (cancelText u)
       (okEnabled u) (fileName u) (fileTypeCombo u) (folderView u).

Definition set_cancelText (t : QString) (u : Ui) : Ui :=
  mkUi (lookInLabel u) (fileNameLabel u) (fileTypeLabel u) (okText u) t
       (okEnabled u) (fileName u) (fileTypeCombo u) (folderView u).

Definition set_okEnabled (b : bool) (u : Ui) : Ui :=
  mkUi (lookInLabel u) (fileNameLabel u) (fileTypeLabel u) (okText u)
       (cancelText u) b (fileName u) (fileTypeCombo u) (folderView u).

Definition set_fileName (t : QString) (u : Ui) : Ui :=
  mkUi (lookInLabel u) (fileNameLabel u) (fileTypeLabel u) (okText u)
       (cancelText u) (okEnabled u) t (fileTypeCombo u) (folderView u).

Definition set_fileTypeCombo (t : QString) (u : Ui) : Ui :=
  mkUi (lookInLabel u) (fileNameLabel u) (fileTypeLabel u) (okText u)
       (cancelText u) (okEnabled u) (fileName u) t (folderView u).

Definition with_folderView (f : FolderView → FolderView) (u : Ui) : Ui :=
  mkUi (lookInLabel u) (fileNameLabel u) (fileTypeLabel u) (okText u)
       (cancelText u) (okEnabled u) (fileName u) (fileTypeCombo u)
       (f (folderView u)).

Definition setSelectionMode (m : SelectionMode) (v : FolderView) : FolderView :=
  mkFolderView (viewMode v) m.

(** The double quote character, and a text between double quotes. *)
Definition dquote : ascii := ascii_of_nat 34.

Definition quoted (s : QString) : QString :=
  String dquote (s +:+ String dquote EmptyString).

(** *** The check of the job's answer (lines 339-368) *)

(** How one run of the loop body ends: [break] with [error] set, or the
    end of the body (by [continue] or by falling through) with the value
    the index [i] then has. *)
Inductive Flow :=
| Break (error : QString)
| Continue (i : nat).

(** The final [error], and for the model the indices the body ran at. *)
Record Checked := mkChecked {
  error : QString;
  visited : list nat
}.

Section Validation.

Context `{Toolkit}.

Variable fileMode : FileMode.
Variable job_paths : list FilePath.
Variable job_files : list FileInfo.

(** [files[i]], unless [i >= files.size() || files[i]->path() != path]. *)
Definition file_info_for (i : nat) (p : FilePath) : option FileInfo :=
  match job_files !! i with
  | Some file => if decide (path file = p) then Some file else None
  | None => None
  end.

(** The body of the [for] loop at index [i], where [paths[i]] is [p]. *)
Definition body (i : nat) (p : FilePath) : Flow :=
  match file_info_for i p with
  | None =>
      if decide (fileMode ≠ AnyFile) then
        Break (QStr.arg1 "Path " (quoted (FilePath_displayName p)) " does not exist")
      else
        let i := S i in
        Continue i
  | Some file =>
      if decide (fileMode = Directory) then
        if negb (isDir file) then
          Break (QStr.arg1 EmptyString (quoted (FilePath_displayName p)) " is not a directory")
        else Continue i
      else if isDir file || isShortcut file then
        Break (QStr.arg1 EmptyString (quoted (FilePath_displayName p)) " is not a file")
      else Continue i
  end.

(** [for(size_t i = ...; i < paths.size(); ++i) { body }], entered with
    the given value of [i]. *)
Equations? check_from (i : nat) : Checked by wf (length job_paths - i) lt :=
  check_from i with inspect (job_paths !! i) => {
    | exist _ None _ => mkChecked EmptyString [];
    | exist _ (Some p) Hp with inspect (body i p) => {
        | exist _ (Break e) _ => mkChecked e [i];
        | exist _ (Continue i') Hb =>
            let r := check_from (S i') in
            mkChecked (error r) (i :: visited r)
      }
  }.
Proof.
  apply lookup_lt_Some in Hp.
  assert (i ≤ i'); [|lia].
  unfold body in Hb.
  destruct (file_info_for i p) as [file|];
    repeat
      match type of Hb with
      | (if ?c then _ else _) = _ => destruct c
      end;
    inversion Hb; lia.
Qed.

(** The whole loop: [error] after it. *)
Definition check : Checked := check_from 0.

End Validation.

(** *** The member functions *)

Section Members.

Context `{Toolkit}.

(** [FileDialog::directory()] *)
Definition directory (d : Dialog) : QUrl := directoryPath_ d.

(** [FileDialog::selectedFiles()] *)
Definition selectedFiles (d : Dialog) : list QUrl := selectedFiles_ d.

(** [FileDialog::reject()] *)
Definition reject (d : Dialog) : Dialog := perform QDialog_reject d.

(** [FileDialog::updateSelectionMode()] *)
Definition updateSelectionMode (d : Dialog) : Dialog :=
  with_ui (with_folderView
             (setSelectionMode
                (if decide (fileMode_ d = ExistingFiles)
                 then ExtendedSelection else SingleSelection))) d.

(** [FileDialog::doAccept()] *)
Definition doAccept (d : Dialog) : Dialog :=
  let d := perform (filesSelected (selectedFiles_ d)) d in
  let d :=
    match selectedFiles_ d with
    | [url] => perform (fileSelected url) d
    | _ => d
    end in
  perform QDialog_accept d.

(** Lines 158-166 of [accept()]: the Ok button is disabled, then the job
    is created on the path list of [selectedFiles_] and started. *)
Definition startFileInfoJob (d : Dialog) : Dialog :=
  let d := with_ui (set_okEnabled false) d in
  let pathList : list FilePath := selectedFiles_ d in
  perform (FileInfoJob_runAsync pathList) d.

(** The separator of [accept()]: a double quote, white space, a double
    quote. *)
Definition name_separator : QRegExp :=
  mkQRegExp (String dquote ("\s+" +:+ String dquote EmptyString))
            CaseSensitive RegExp.

(** One round of the loop of lines 147-155. *)
Definition appendFullPath (d : Dialog) (name : QString) : Dialog :=
  let name :=
    if negb (QStr.isEmpty (defaultSuffix_ d))
       && bool_decide (QStr.lastIndexOf "." name = (-1)%Z)
    then (name +:+ ".") +:+ defaultSuffix_ d
    else name in
  let fullPath := FilePath_child (directoryPath_ d) name in
  set_selectedFiles_ (selectedFiles_ d ++ [fullPath]) d.

(** [FileDialog::accept()] *)
Definition accept (d : Dialog) : Dialog :=
  let d := set_selectedFiles_ [] d in
  let fileNames := fileName (ui d) in
  if QStr.isEmpty fileNames then
    if decide (fileMode_ d = Directory) then
      let d := set_selectedFiles_ (selectedFiles_ d ++ [directory d]) d in
      startFileInfoJob d
    else
      perform (QMessageBox_critical "Error" "Please select a file") d
  else
    let firstQuote := QStr.indexOf dquote 0 fileNames in
    let lastQuote := QStr.lastIndexOf dquote fileNames in
    let parsedNames :=
      if bool_decide (firstQuote ≠ (-1)%Z) && bool_decide (lastQuote ≠ (-1)%Z)
      then
        QString_split_regexp name_separator
          (QStr.mid (firstQuote + 1) (lastQuote - firstQuote - 1) fileNames)
      else [fileNames] in
    let d := foldl appendFullPath d parsedNames in
    startFileInfoJob d.

(** [FileDialog::onFileInfoJobFinished()], for the job [sender()] is. *)
Definition onFileInfoJobFinished (job : FinishedJob) (d : Dialog) : Dialog :=
  let d :=
    if isCancelled job then
      let d := set_selectedFiles_ [] d in
      reject d
    else
      let error := error (check (fileMode_ d) (paths job) (files job)) in
      if QStr.isEmpty error then doAccept d
      else
        let d := perform (QMessageBox_critical "Error" error) d in
        set_selectedFiles_ [] d
  in
  with_ui (set_okEnabled true) d.

(** [FileDialog::setDirectoryPath(directory)], on the members of the
    model; the URL sent with [directoryEntered] is left out. *)
Definition setDirectoryPath (directory : FilePath) (d : Dialog) : Dialog :=
  let d := set_directoryPath_ directory d in
  perform directoryEntered d.

(** [FileDialog::onSelectionChanged], for the files the folder view
    reports as selected. *)
Fixpoint selectionText (fileMode : FileMode) (multiple : bool)
    (selFiles : list FileInfo) (fileNames : QString) : QString :=
  match selFiles with
  | [] => fileNames
  | fileInfo :: rest =>
      if (if decide (fileMode = Directory) then negb (isDir fileInfo)
          else isDir fileInfo)
      then selectionText fileMode multiple rest fileNames
      else
        let baseName := FilePath_baseName (path fileInfo) in
        if multiple then
          let fileNames :=
            if negb (QStr.isEmpty fileNames) then fileNames +:+ " "
            else fileNames in
          selectionText fileMode multiple rest (fileNames +:+ quoted baseName)
        else baseName
  end.

Definition onSelectionChanged (selFiles : list FileInfo) (d : Dialog) : Dialog :=
  let multiple := bool_decide (1 < length selFiles) in
  let fileNames := selectionText (fileMode_ d) multiple selFiles EmptyString in
  with_ui (set_fileName fileNames) d.

(** [FileDialog::setViewMode(mode)]; the checked state of the four
    toolbar actions is not part of the model. *)
Definition setViewMode (mode : ViewMode) (d : Dialog) : Dialog :=
  let d := set_viewMode_ mode d in
  let d := with_ui (with_folderView (FolderView_setViewMode mode)) d in
  updateSelectionMode d.

(** The sender of [onViewModeToggled]. *)
Inductive Action :=
| iconViewAction_ | thumbnailViewAction_ | compactViewAction_
| detailedViewAction_ | otherAction.

(** [FileDialog::onViewModeToggled(active)], sent by [action]. *)
Definition onViewModeToggled (action : Action) (active : bool) (d : Dialog) : Dialog :=
  if active then
    match action with
    | iconViewAction_ => setViewMode IconMode d
    | thumbnailViewAction_ => setViewMode ThumbnailMode d
    | compactViewAction_ => setViewMode CompactMode d
    | detailedViewAction_ => setViewMode DetailedListMode d
    | otherAction => d
    end
  else d.

(** [FileDialog::setFileMode(mode)] *)
Definition setFileMode (mode : FileMode) (d : Dialog) : Dialog :=
  let mode := if decide (mode = DirectoryOnly) then Directory else mode in
  let d := set_fileMode_ mode d in
  updateSelectionMode d.

(** [FileDialog::setAcceptMode(mode)] *)
Definition setAcceptMode (mode : AcceptMode) (d : Dialog) : Dialog :=
  set_acceptMode_ mode d.

(** [FileDialog::setLabelText(label, text)] *)
Definition setLabelText (label : DialogLabel) (text : QString) (d : Dialog) : Dialog :=
  match label with
  | LookIn => with_ui (set_lookInLabel text) d
  | FileName => with_ui (set_fileNameLabel text) d
  | FileType => with_ui (set_fileTypeLabel text) d
  | Accept => with_ui (set_okText text) d
  | Reject => with_ui (set_cancelText text) d
  end.

(** [FileDialog::labelText(label)]: the local [text] is assigned in the
    first three cases only; in the last two the text of the button is
    read and dropped. *)
Definition labelText (label : DialogLabel) (d : Dialog) : QString :=
  let text := EmptyString in
  match label with
  | LookIn => lookInLabel (ui d)
  | FileName => fileNameLabel (ui d)
  | FileType => fileTypeLabel (ui d)
  | Accept => let _ := okText (ui d) in text
  | Reject => let _ := cancelText (ui d) in text
  end.

(** The loop of [filterAcceptsRow] over [patterns_]. *)
Fixpoint nameMatched (name : QString) (patterns : list QRegExp) : bool :=
  match patterns with
  | [] => false
  | pattern :: rest =>
      if QRegExp_exactMatch pattern name then true
      else nameMatched name rest
  end.

(** [FileDialog::FileDialogFilter::filterAcceptsRow(model, info)] *)
Definition filterAcceptsRow (d : Dialog) (info : FileInfo) : bool :=
  let returned : option bool :=
    if decide (fileMode_ d = Directory) then
      if negb (isDir info) then Some false else None
    else
      if isDir info then Some true else None in
  match returned with
  | Some b => b
  | None => nameMatched (displayName info) (patterns_ d)
  end.

(** [FileDialog::FileDialogFilter::update()] *)
Definition update (d : Dialog) : Dialog :=
  let nameFilter := currentNameFilter_ d in
  let left := QStr.indexOf "(" 0 nameFilter in
  let nameFilter :=
    if bool_decide (left ≠ (-1)%Z) then
      let left := (left + 1)%Z in
      let right := QStr.indexOf ")" (Z.to_nat left) nameFilter in
      let right :=
        if bool_decide (right = (-1)%Z)
        then Z.of_nat (String.length nameFilter) else right in
      QStr.mid left (right - left) nameFilter
    else nameFilter in
  let globs := QStr.split " " (QStr.simplified nameFilter) in
  set_patterns_
    (foldl (λ patterns glob, patterns ++ [mkQRegExp glob CaseInsensitive Wildcard])
           [] globs) d.

(** [FileDialog::selectNameFilter(filter)] *)
Definition selectNameFilter (filter : QString) (d : Dialog) : Dialog :=
  if decide (filter ≠ currentNameFilter_ d) then
    let d := set_currentNameFilter_ filter d in
    let d := with_ui (set_fileTypeCombo filter) d in
    let d := update d in
    let d := perform proxyModel_invalidate d in
    perform (filterSelected filter) d
  else d.

(** The constructor, on the members of the model: the initialisers of
    lines 22-29, then lines 50, 58 and 97, then the directory if the
    path is valid ([None] stands for an invalid path). *)
Definition FileDialog_new (dir : option FilePath) : Dialog :=
  let d :=
    mkDialog setupUi DetailedListMode AnyFile AcceptOpen
             EmptyString [] EmptyString EmptyString [] [] in
  let d := with_ui (with_folderView (FolderView_setViewMode (viewMode_ d))) d in
  let d := updateSelectionMode d in
  let d := setViewMode (viewMode_ d) d in
  match dir with
  | Some p => setDirectoryPath p d
  | None => d
  end.

(** The calls a client or the toolkit can make on a dialog. *)
Inductive Call :=
| call_accept
| call_reject
| call_onFileInfoJobFinished (job : FinishedJob)
| call_setDirectoryPath (directory : FilePath)
| call_onSelectionChanged (selFiles : list FileInfo)
| call_onViewModeToggled (action : Action) (active : bool)
| call_setViewMode (mode : ViewMode)
| call_setFileMode (mode : FileMode)
| call_setAcceptMode (mode : AcceptMode)
| call_setLabelText (label : DialogLabel) (text : QString)
| call_selectNameFilter (filter : QString).

Definition call (d : Dialog) (c : Call) : Dialog :=
  match c with
  | call_accept => accept d
  | call_reject => reject d
  | call_onFileInfoJobFinished job => onFileInfoJobFinished job d
  | call_setDirectoryPath directory => setDirectoryPath directory d
  | call_onSelectionChanged selFiles => onSelectionChanged selFiles d
  | call_onViewModeToggled action active => onViewModeToggled action active d
  | call_setViewMode mode => setViewMode mode d
  | call_setFileMode mode => setFileMode mode d
  | call_setAcceptMode mode => setAcceptMode mode d
  | call_setLabelText label text => setLabelText label text d
  | call_selectNameFilter filter => selectNameFilter filter d
  end.

(** The dialog after construction and a sequence of calls. *)
Definition after_calls (dir : option FilePath) (cs : list Call) : Dialog :=
  foldl call (FileDialog_new dir) cs.

(** The validity of the path at position [i], as the specification words
    it: the path has its file info unless any file may be named; with a
    file info, it is a directory when directories are selected, and
    neither a directory nor a shortcut otherwise. *)
Definition passes_validation (fileMode : FileMode) (job_files : list FileInfo)
    (i : nat) (p : FilePath) : bool :=
  match file_info_for job_files i p with
  | None => bool_decide (fileMode = AnyFile)
  | Some file =>
      if decide (fileMode = Directory) then isDir file
      else negb (isDir file) && negb (isShortcut file)
  end.

(** The selection mode the view is to have under a file mode. *)
Definition selectionMode_for (fileMode : FileMode) : SelectionMode :=
  match fileMode with
  | ExistingFiles => ExtendedSelection
  | _ => SingleSelection
  end.

(** The selection mode of the view is the one of the file mode. *)
Definition selection_follows_mode (d : Dialog) : Prop :=
  selectionMode (folderView (ui d)) = selectionMode_for (fileMode_ d).

(** The filter as the specification words it: in the file mode
    [Directory] a row is accepted exactly when it is a directory; in the
    other file modes every directory is accepted, and another row exactly
    when its display name matches one of the patterns. *)
Definition accepts_as_specified (d : Dialog) (info : FileInfo) : Prop :=
  if decide (fileMode_ d = Directory) then
    filterAcceptsRow d info = true ↔ isDir info = true
  else
    (isDir info = true → filterAcceptsRow d info = true) ∧
    (isDir info = false →
     (filterAcceptsRow d info = true ↔
      ∃ re, re ∈ patterns_ d ∧ QRegExp_exactMatch re (displayName info) = true)).

(** What [sender()] shows of a job that has run: [paths()] is [paths_],
    [files()] is [results_], and [cancelled] is the flag as the slot
    reads it. *)
Definition sender (cancelled : bool) (j : FileInfoJob.Job) : FinishedJob :=
  mkFinishedJob cancelled (FileInfoJob.paths_ j) (FileInfoJob.results_ j).

End Members.

End FileDialog.

(** ** A toolkit to run the definitions on *)

Module Desktop.

Definition lower (a : ascii) : ascii :=
  let n := nat_of_ascii a in
  if (65 <=? n) && (n <=? 90) then ascii_of_nat (n + 32) else a.

Definition same_char (cs : CaseSensitivity) (a b : ascii) : bool :=
  match cs with
  | CaseSensitive => Ascii.eqb a b
  | CaseInsensitive => Ascii.eqb (lower a) (lower b)
  end.

(** Wildcard matching of the whole of [s]: [*] stands for any text, [?]
    for any one character, every other character for itself. *)
Fixpoint wildcard (cs : CaseSensitivity) (glob s : QString) : bool :=
  match glob with
  | EmptyString => QStr.isEmpty s
  | String g glob' =>
      if Ascii.eqb g "*" then
        (fix any_prefix (s : QString) : bool :=
           wildcard cs glob' s
           || match s with
              | EmptyString => false
              | String _ s' => any_prefix s'
              end) s
      else
        match s with
        | EmptyString => false
        | String a s' =>
            (Ascii.eqb g "?" || same_char cs g a) && wildcard cs glob' s'
        end
  end.

(** Splitting at the separators of [accept()]: a double quote, one or
    more white-space characters, a double quote.  [cur] is the piece
    being read; [pending] is the text of a separator that has begun and
    is not finished, a double quote and the white space read after it.
    Matches are taken from the left and do not overlap. *)
Fixpoint split_names_from (cur : QString) (pending : option QString)
    (s : QString) : list QString :=
  match s with
  | EmptyString =>
      [match pending with Some sep => cur +:+ sep | None => cur end]
  | String c s' =>
      match pending with
      | None =>
          if Ascii.eqb c FileDialog.dquote
          then split_names_from cur (Some (String c EmptyString)) s'
          else split_names_from (cur +:+ String c EmptyString) None s'
      | Some sep =>
          if QStr.isSpace c
          then split_names_from cur (Some (sep +:+ String c EmptyString)) s'
          else if Ascii.eqb c FileDialog.dquote then
            if 1 <? String.length sep
            then cur :: split_names_from EmptyString None s'
            else split_names_from (cur +:+ sep) (Some (String c EmptyString)) s'
          else split_names_from ((cur +:+ sep) +:+ String c EmptyString) None s'
      end
  end.

Definition split_names (s : QString) : list QString :=
  split_names_from EmptyString None s.

#[global] Instance CaseSensitivity_eq_dec : EqDecision CaseSensitivity.
Proof. solve_decision. Defined.
#[global] Instance PatternSyntax_eq_dec : EqDecision PatternSyntax.
Proof. solve_decision. Defined.
#[global] Instance QRegExp_eq_dec : EqDecision QRegExp.
Proof. solve_decision. Defined.

Definition toolkit : Toolkit := {|
  FilePath_child dir name := dir +:+ "/" +:+ name;
  FilePath_displayName p := p;
  FilePath_baseName p := List.last (QStr.split "/" p) EmptyString;
  QString_split_regexp re s :=
    if decide (re = FileDialog.name_separator) then split_names s else [s];
  QRegExp_exactMatch re s :=
    match patternSyntax re with
    | Wildcard => wildcard (caseSensitivity re) (pattern re) s
    | RegExp => bool_decide (pattern re = s)
    end;
  FolderView_setViewMode mode _ := mkFolderView mode ExtendedSelection;
  setupUi :=
    mkUi "Look in:" "File name:" "File type:" "OK" "Cancel" true
         EmptyString EmptyString (mkFolderView IconMode NoSelection)
|}.

End Desktop.

(** ** A session: two names typed, one of a missing file, one of a folder *)

Module Session.

Import FileDialog.

Definition new_txt : FilePath := "file:///tmp/new.txt".
Definition notes_txt : FilePath := "file:///tmp/notes.txt".
Definition sub : FilePath := "file:///tmp/sub".

(** The file system: [notes.txt] is a regular file and [sub] a folder;
    the query of any other path fails, and the [FileInfo] made from the
    null answer carries no path. *)
Definition query_info (p : FilePath) : FileInfo :=
  if decide (p = sub) then mkFileInfo sub true false "sub"
  else if decide (p = notes_txt) then mkFileInfo notes_txt false false "notes.txt"
  else mkFileInfo EmptyString false false EmptyString.

Definition never_cancelled (n : nat) : bool := false.

(** The flag is set between the second and the third check. *)
Definition cancelled_from_2 (n : nat) : bool := 2 <=? n.

(** A new dialog on [/tmp], in the file mode [AnyFile]. *)
Definition opened : Dialog :=
  @FileDialog_new Desktop.toolkit (Some "file:///tmp").

(** The user types two quoted names into the file-name entry. *)
Definition typed : Dialog :=
  with_ui (set_fileName (quoted "new.txt" +:+ " " +:+ quoted "sub")) opened.

(** Ok is pressed: [accept()] starts the job. *)
Definition waiting : Dialog := @accept Desktop.toolkit typed.

(** The job as [accept()] creates it, and after [run()]. *)
Definition job : FileInfoJob.Job :=
  FileInfoJob.mkJob (selectedFiles_ waiting) [] [] 0.

Definition job_done : FileInfoJob.Job :=
  FileInfoJob.run query_info never_cancelled job.

(** The slot runs on the finished job. *)
Definition answered : Dialog :=
  @onFileInfoJobFinished Desktop.toolkit (sender false job_done) waiting.

(** A job on four paths. *)
Definition job4 : FileInfoJob.Job :=
  FileInfoJob.mkJob [notes_txt; sub; new_txt; notes_txt] [] [] 0.

(** The dialog in the file mode [Directory], showing text files only. *)
Definition folders_only : Dialog :=
  selectNameFilter "Text files (*.txt)"
    (@setFileMode Directory opened).

(** The same two names, in the file mode [ExistingFile]. *)
Definition waiting_existing : Dialog :=
  @accept Desktop.toolkit (@setFileMode ExistingFile typed).

(** A folder that is not named like a text file, and one that is. *)
Definition documents : FileInfo :=
  mkFileInfo "file:///tmp/Documents" true false "Documents".

Definition old_txt : FileInfo :=
  mkFileInfo "file:///tmp/old.TXT" true false "old.TXT".

End Session.

(** ** Notions used by the further properties *)

Module Notions.

Import FileDialog.

(** No path takes the [++i; continue;] way of the check: a path without
    its file info only occurs in a file mode other than [AnyFile]. *)
Definition nothing_skipped (fileMode : FileMode) (job_paths : list FilePath)
    (job_files : list FileInfo) : Prop :=
  ∀ k p, job_paths !! k = Some p →
         file_info_for job_files k p = None → fileMode ≠ AnyFile.

(** The check as the specification words it for an entry without file
    info in the file mode [AnyFile]: the body does not run at the next
    index. *)
Definition next_never_validated `{Toolkit} (fileMode : FileMode)
    (job_paths : list FilePath) (job_files : list FileInfo) (i : nat) : Prop :=
  ∀ p, fileMode = AnyFile → job_paths !! i = Some p →
       file_info_for job_files i p = None →
       S i ∉ visited (check fileMode job_paths job_files).

(** Whether the character [ch] occurs in [s]. *)
Fixpoint occurs (ch : ascii) (s : QString) : bool :=
  match s with
  | EmptyString => false
  | String a s' => Ascii.eqb a ch || occurs ch s'
  end.

(** The name with the default suffix added: only when there is a default
    suffix and the name has no dot. *)
Definition with_suffix (suffix name : QString) : QString :=
  if QStr.isEmpty suffix || occurs "." name then name
  else (name +:+ ".") +:+ suffix.

(** The files of a selection that count in a file mode: the directories
    when directories are selected, the other files otherwise. *)
Definition eligible (fileMode : FileMode) (fileInfo : FileInfo) : bool :=
  if decide (fileMode = Directory) then isDir fileInfo
  else negb (isDir fileInfo).

(** The base names of the eligible files of a selection, in order. *)
Definition base_names `{Toolkit} (fileMode : FileMode)
    (selFiles : list FileInfo) : list QString :=
  (λ fileInfo, FilePath_baseName (path fileInfo))
    <$> filter (λ fileInfo, eligible fileMode fileInfo = true) selFiles.

(** The type of a file is the one the file mode asks for. *)
Definition type_ok (fileMode : FileMode) (file : FileInfo) : bool :=
  if decide (fileMode = Directory) then isDir file
  else negb (isDir file) && negb (isShortcut file).

(** The names [accept()] reads in a text that is not empty (lines
    135-144). *)
Definition parsed_names `{Toolkit} (fileNames : QString) : list QString :=
  let firstQuote := QStr.indexOf dquote 0 fileNames in
  let lastQuote := QStr.lastIndexOf dquote fileNames in
  if bool_decide (firstQuote ≠ (-1)%Z) && bool_decide (lastQuote ≠ (-1)%Z)
  then
    QString_split_regexp name_separator
      (QStr.mid (firstQuote + 1) (lastQuote - firstQuote - 1) fileNames)
  else [fileNames].

(** The part of a name filter [update()] reads the globs from (lines
    576-586). *)
Definition filter_text (nameFilter : QString) : QString :=
  let left := QStr.indexOf "(" 0 nameFilter in
  if bool_decide (left ≠ (-1)%Z) then
    let left := (left + 1)%Z in
    let right := QStr.indexOf ")" (Z.to_nat left) nameFilter in
    let right :=
      if bool_decide (right = (-1)%Z)
      then Z.of_nat (String.length nameFilter) else right in
    QStr.mid left (right - left) nameFilter
  else nameFilter.

(** The case-insensitive wildcard patterns of a list of globs. *)
Definition wildcards (globs : list QString) : list QRegExp :=
  (λ glob, mkQRegExp glob CaseInsensitive Wildcard) <$> globs.


(** The text between two names of a multiple selection as it is split
    off by [accept()]: a double quote, a space, a double quote. *)
Definition between_names : QString :=
  String dquote (String " " (String dquote EmptyString)).

End Notions.

(** ** [FileDialog::onFileClicked] *)

Module Activation.

Import FileDialog.

(** [FolderView::ClickType]: the source names [ActivatedClick] only. *)
Inductive ClickType := ActivatedClick | OtherClick.

#[global] Instance ClickType_eq_dec : EqDecision ClickType.
Proof. solve_decision. Defined.

Section OnFileClicked.

Context `{Toolkit}.

(** [FileDialog::selectFilePath(path)] asks the selection model of the
    view to select the row of the path; what the view then does to the
    dialog (its selection signals) is the toolkit's. *)
Variable selectFilePath : FilePath → Dialog → Dialog.

(** [FileDialog::onFileClicked(type, file)]; [None] is the null
    pointer. *)
Definition onFileClicked (type : ClickType) (file : option FileInfo)
    (d : Dialog) : Dialog :=
  let canAccept := false in
  let '(d, canAccept) :=
    match file with
    | Some f =>
        if decide (type = ActivatedClick) then
          if isDir f then
            let d := setDirectoryPath (path f) d in
            if decide (fileMode_ d = Directory)
            then (with_ui (set_fileName EmptyString) d, canAccept)
            else (d, canAccept)
          else if decide (fileMode_ d ≠ Directory) then (d, true)
          else (d, canAccept)
        else (d, canAccept)
    | None => (d, canAccept)
    end in
  if canAccept then
    match file with
    | Some f => accept (selectFilePath (path f) d)
    | None => d
    end
  else d.

End OnFileClicked.

End Activation.

(** ** [FileDialog::setNameFilters] and [FileDialog::setMimeTypeFilters] *)

Module Filters.

(** The two members and the items of the file-type combo box.  The
    signals the combo box sends while it is refilled are the toolkit's
    and not part of the model. *)
Record FilterLists := mkFilterLists {
  nameFilters_ : list QString;
  mimeTypeFilters_ : list QString;
  fileTypeCombo_items : list QString
}.

(** [FileDialog::setNameFilters(filters)] *)
Definition setNameFilters (filters : list QString) (st : FilterLists) : FilterLists :=
  let nameFilters :=
    match filters with
    | [] => ["All Files (*)"]
    | _ => filters
    end in
  mkFilterLists nameFilters (mimeTypeFilters_ st) ([] ++ filters).

(** [s[length - 1] = c]; the empty text has no such position and is left
    as it is. *)
Fixpoint set_last (c : ascii) (s : QString) : QString :=
  match s with
  | EmptyString => EmptyString
  | String a EmptyString => String c EmptyString
  | String a s' => String a (set_last c s')
  end.

Section Mime.

(** [QMimeDatabase::mimeTypeForName(filter)], through [comment()] and
    [suffixes()]. *)
Variable mime_comment : QString → QString.
Variable mime_suffixes : QString → list QString.

(** The name filter built for one MIME type (lines 483-493); the value
    of [nameFilter + " ("] is dropped. *)
Definition mimeNameFilter (filter : QString) : QString :=
  let nameFilter := mime_comment filter in
  match mime_suffixes filter with
  | [] => nameFilter
  | suffixes =>
      let _ := nameFilter +:+ " (" in
      let nameFilter :=
        foldl (λ nameFilter suffix, ((nameFilter +:+ "*.") +:+ suffix) +:+ " ")
              nameFilter suffixes in
      set_last ")" nameFilter
  end.

(** [FileDialog::setMimeTypeFilters(filters)] *)
Definition setMimeTypeFilters (filters : list QString) (st : FilterLists) : FilterLists :=
  let st := mkFilterLists (nameFilters_ st) filters (fileTypeCombo_items st) in
  let nameFilters := foldl (λ l filter, l ++ [mimeNameFilter filter]) [] filters in
  setNameFilters nameFilters st.

End Mime.

End Filters.

(** ** More of the session *)

Module Samples.

Import FileDialog Session.

(** The member [defaultSuffix_] given a value. *)
Definition set_defaultSuffix_ (suffix : QString) (d : Dialog) : Dialog :=
  mkDialog (ui d) (viewMode_ d) (fileMode_ d) (acceptMode_ d)
           (directoryPath_ d) (selectedFiles_ d) (currentNameFilter_ d)
           suffix (patterns_ d) (effects d).

Definition always_cancelled (n : nat) : bool := true.

Definition other_txt : FilePath := "file:///tmp/other.txt".

(** The file [notes.txt], the folder [sub] and a second file. *)
Definition notes_info : FileInfo := query_info notes_txt.
Definition sub_info : FileInfo := query_info sub.
Definition other_info : FileInfo := mkFileInfo other_txt false false "other.txt".

(** [notes] is typed into a dialog whose default suffix is [txt]. *)
Definition typed_notes : Dialog :=
  set_defaultSuffix_ "txt" (with_ui (set_fileName "notes") opened).

(** A new dialog in the file mode [Directory]. *)
Definition choosing_folder : Dialog := @setFileMode Directory opened.

(** Name filters with an unclosed parenthesis and without any. *)
Definition images_unclosed : Dialog :=
  selectNameFilter "Images (*.png *.jpg" opened.

Definition png_only : Dialog := selectNameFilter "*.png" opened.

(** Three names typed in the file mode [AnyFile], the first two of
    files that do not exist, and what the job answers. *)
Definition three_paths : list FilePath := [new_txt; other_txt; notes_txt].
Definition three_files : list FileInfo := query_info <$> three_paths.

(** A view whose selection model does nothing to the dialog. *)
Definition quiet_select (p : FilePath) (d : Dialog) : Dialog := d.

End Samples.

(** ** [accept()] and the slot, statement by statement *)

Module ProgramOrder.

Import FileDialog.






Section Programs.

Context `{Toolkit}.






End Programs.






End ProgramOrder.

(** * Properties *)

(** ** The file-info job *)

Section FileInfoJobFacts.

Import FileInfoJob.

Variable query_info : FilePath → FileInfo.
Variable cancelledAt : nat → bool.

Abbreviation visit := (visit query_info cancelledAt).
Abbreviation run := (run query_info cancelledAt).
Abbreviation run_early_exit := (run_early_exit query_info cancelledAt).
Abbreviation scan_until_cancelled := (scan_until_cancelled query_info cancelledAt).
Abbreviation queried := (queried cancelledAt).
Abbreviation got := (λ p, gotInfo p (query_info p)).

Lemma queried_nil n : queried n [] = [].
Proof. reflexivity. Qed.

Lemma filter_imap_reindex (P : nat → bool) (g : nat → nat) (ps : list FilePath) :
  (filter (λ ip : nat * FilePath, P ip.1 = false) (imap (λ i p, (g i, p)) ps)).*2
  = (filter (λ ip : nat * FilePath, P (g ip.1) = false) (imap pair ps)).*2.
Proof.
  revert P g. induction ps as [|p ps IH]; intros P g; [done|].
  rewrite !imap_cons, !filter_cons. simpl.
  assert (Htl :
    (filter (λ ip : nat * FilePath, P ip.1 = false)
            (imap ((λ i p0, (g i, p0)) ∘ S) ps)).*2
    = (filter (λ ip : nat * FilePath, P (g ip.1) = false)
              (imap (pair ∘ S) ps)).*2).
  { etrans; [exact (IH P (g ∘ S))|].
    symmetry. exact (IH (P ∘ g) S). }
  destruct (P (g 0)); simpl; [exact Htl|].
  f_equal. exact Htl.
Qed.

Lemma queried_cons n p (ps : list FilePath) :
  queried n (p :: ps)
  = if cancelledAt n then queried (S n) ps else p :: queried (S n) ps.
Proof.
  unfold FileInfoJob.queried.
  rewrite imap_cons, filter_cons. simpl.
  replace (n + 0) with n by lia.
  pose proof (filter_imap_reindex (λ i, cancelledAt (n + i)) S ps) as H.
  simpl in H.
  assert (Hs : (filter (λ ip : nat * FilePath, cancelledAt (n + S ip.1) = false)
                  (imap pair ps)).*2
             = (filter (λ ip : nat * FilePath, cancelledAt (S (n + ip.1)) = false)
                  (imap pair ps)).*2).
  { f_equal. apply list_filter_iff. intros [i q]. simpl.
    by replace (n + S i) with (S (n + i)) by lia. }
  destruct (cancelledAt n); simpl.
  - etrans; [exact H|exact Hs].
  - f_equal. etrans; [exact H|exact Hs].
Qed.

Lemma queried_sublist n (ps : list FilePath) : queried n ps `sublist_of` ps.
Proof.
  revert n. induction ps as [|p ps IH]; intros n.
  - rewrite queried_nil. constructor.
  - rewrite queried_cons. destruct (cancelledAt n).
    + apply sublist_cons. apply IH.
    + apply sublist_skip. apply IH.
Qed.

Lemma queried_all n (ps : list FilePath) :
  (∀ i, i < length ps → cancelledAt (n + i) = false) → queried n ps = ps.
Proof.
  revert n. induction ps as [|p ps IH]; intros n Hclear; [done|].
  rewrite queried_cons.
  rewrite <- (Nat.add_0_r n) at 1. rewrite (Hclear 0) by (simpl; lia).
  f_equal. apply IH. intros i Hi.
  replace (S n + i) with (n + S i) by lia. apply Hclear. simpl. lia.
Qed.

(** The loop of [run()], as a function of the state it starts from. *)
Lemma foldl_visit (ps : list FilePath) (j : Job) :
  foldl visit j ps
  = mkJob (paths_ j)
          (results_ j ++ (query_info <$> queried (polls j) ps))
          (emitted j ++ (got <$> queried (polls j) ps))
          (polls j + length ps).
Proof.
  revert j. induction ps as [|p ps IH]; intros [paths results sigs n].
  - simpl. rewrite !app_nil_r, Nat.add_0_r. done.
  - cbn [foldl]. rewrite IH, queried_cons.
    unfold FileInfoJob.visit, isCancelled, polled, push_back, emit. simpl.
    destruct (cancelledAt n); simpl.
    + f_equal. lia.
    + rewrite <- !app_assoc. simpl. f_equal. lia.
Qed.

(** Once the flag reads set, a monotone flag skips every later path. *)
Lemma queried_after_cancel n (ps : list FilePath) :
  monotone_flag cancelledAt → cancelledAt n = true → queried n ps = [].
Proof.
  intros Hmono. revert n. induction ps as [|p ps IH]; intros n Hn; [done|].
  rewrite queried_cons, Hn. apply IH. apply (Hmono n); [lia|done].
Qed.

Lemma queried_first_cancel n k (ps : list FilePath) :
  monotone_flag cancelledAt →
  (∀ i, i < k → cancelledAt (n + i) = false) →
  cancelledAt (n + k) = true →
  queried n ps = take k ps.
Proof.
  intros Hmono. revert n k. induction ps as [|p ps IH]; intros n k Hbefore Hk.
  - by rewrite take_nil.
  - destruct k as [|k].
    + rewrite Nat.add_0_r in Hk. by apply queried_after_cancel.
    + rewrite queried_cons. rewrite <- (Nat.add_0_r n) at 1.
      rewrite (Hbefore 0) by lia. simpl. f_equal.
      apply IH.
      * intros i Hi. replace (S n + i) with (n + S i) by lia. apply Hbefore. lia.
      * by replace (S n + k) with (n + S k) by lia.
Qed.

Lemma scan_until_cancelled_queried (ps : list FilePath) (j : Job) :
  monotone_flag cancelledAt →
  results_ (scan_until_cancelled ps j)
    = results_ j ++ (query_info <$> queried (polls j) ps) ∧
  emitted (scan_until_cancelled ps j)
    = emitted j ++ (got <$> queried (polls j) ps).
Proof.
  intros Hmono. revert j.
  induction ps as [|p ps IH]; intros [paths results sigs n].
  - simpl. by rewrite !app_nil_r.
  - rewrite queried_cons. simpl.
    destruct (cancelledAt n) eqn:Hn; simpl.
    + rewrite (queried_after_cancel (S n) ps Hmono).
      * simpl. by rewrite !app_nil_r.
      * apply (Hmono n); [lia|done].
    + destruct (IH (emit (gotInfo p (query_info p))
                     (push_back (query_info p)
                        (polled (mkJob paths results sigs n))))) as [Hr He].
      unfold emit, push_back, polled in *. simpl in *.
      rewrite Hr, He, <- !app_assoc. done.
Qed.

Lemma run_queried (j : Job) :
  results_ (run j) = results_ j ++ (query_info <$> queried (polls j) (paths_ j)) ∧
  emitted (run j)
    = emitted j ++ (got <$> queried (polls j) (paths_ j)) ++ [finished].
Proof.
  unfold FileInfoJob.run. rewrite foldl_visit.
  unfold emit. simpl. by rewrite <- app_assoc.
Qed.

(** C1. [FileInfoJob::run] goes through [paths_] once, in order: the
    paths kept are those at the positions whose cancellation check read a
    clear flag; for each of them, in the order of [paths_], one [FileInfo]
    is appended to [results_] and one [gotInfo] is emitted for that path;
    one check is made per path; and [finished] is emitted once, last. *)
Theorem run_single_pass_in_order (j : Job) :
  let kept := queried (polls j) (paths_ j) in
  kept `sublist_of` paths_ j ∧
  paths_ (run j) = paths_ j ∧
  results_ (run j) = results_ j ++ (query_info <$> kept) ∧
  emitted (run j) = emitted j ++ (got <$> kept) ++ [finished] ∧
  polls (run j) = polls j + length (paths_ j).
Proof.
  intros kept. destruct (run_queried j) as [Hr He].
  split; [apply queried_sublist|].
  split; [|split; [exact Hr|split; [exact He|]]].
  - unfold FileInfoJob.run. by rewrite foldl_visit.
  - unfold FileInfoJob.run. by rewrite foldl_visit.
Qed.

(** C2. With a monotone cancellation flag, [run()] appends the same
    results and emits the same signals as the loop that leaves at the
    first check reading a set flag; if that is check number [k], exactly
    the first [k] paths are queried, appended and announced, nothing is
    done for path [k] or any later one, and [finished] is still emitted
    once, last. *)
Theorem run_cancellation_is_early_exit (j : Job) :
  monotone_flag cancelledAt →
  (results_ (run j) = results_ (run_early_exit j) ∧
   emitted (run j) = emitted (run_early_exit j)) ∧
  ∀ k,
    (∀ i, i < k → cancelledAt (polls j + i) = false) →
    cancelledAt (polls j + k) = true →
    results_ (run j) = results_ j ++ (query_info <$> take k (paths_ j)) ∧
    emitted (run j)
      = emitted j ++ (got <$> take k (paths_ j)) ++ [finished].
Proof.
  intros Hmono.
  destruct (run_queried j) as [Hr He].
  split.
  - destruct (scan_until_cancelled_queried (paths_ j) j Hmono) as [Hr' He'].
    rewrite Hr, He.
    unfold FileInfoJob.run_early_exit, emit. simpl.
    rewrite Hr', He', <- app_assoc. done.
  - intros k Hbefore Hk.
    rewrite Hr, He.
    by rewrite (queried_first_cancel (polls j) k (paths_ j) Hmono Hbefore Hk).
Qed.

End FileInfoJobFacts.

(** ** The check of the job's answer *)

Section ValidationFacts.

Import FileDialog.

Context `{Toolkit}.

Variable fileMode : FileMode.
Variable job_paths : list FilePath.
Variable job_files : list FileInfo.

Abbreviation check_from := (check_from fileMode job_paths job_files).
Abbreviation check := (check fileMode job_paths job_files).
Abbreviation body := (body fileMode job_files).
Abbreviation passes := (passes_validation fileMode job_files).

Lemma check_from_unfold i :
  check_from i =
  match job_paths !! i with
  | None => mkChecked EmptyString []
  | Some p =>
      match body i p with
      | Break e => mkChecked e [i]
      | Continue i' =>
          mkChecked (error (check_from (S i'))) (i :: visited (check_from (S i')))
      end
  end.
Proof.
  funelim (check_from i);
    repeat match goal with
           | E : job_paths !! _ = _ |- _ => rewrite E
           | E : body _ _ = _ |- _ => rewrite E
           end; done.
Qed.

Lemma body_Continue i p i' :
  body i p = Continue i' → i' = i ∨ (i' = S i ∧ file_info_for job_files i p = None).
Proof.
  unfold FileDialog.body. intros Hb.
  destruct (file_info_for job_files i p) as [file|];
    repeat match type of Hb with
           | (if ?c then _ else _) = _ => destruct c
           end;
    inversion Hb; auto.
Qed.

Lemma body_Break_nonempty i p e : body i p = Break e → QStr.isEmpty e = false.
Proof.
  unfold FileDialog.body. intros Hb.
  destruct (file_info_for job_files i p) as [file|];
    repeat match type of Hb with
           | (if ?c then _ else _) = _ => destruct c
           end;
    inversion Hb; done.
Qed.

(** The body breaks exactly on the paths that do not pass. *)
Lemma body_Break_iff i p :
  (∃ e, body i p = Break e) ↔ passes i p = false.
Proof.
  unfold FileDialog.body, passes_validation.
  destruct (file_info_for job_files i p) as [file|].
  - destruct (decide (fileMode = Directory)) as [Hd|Hd].
    + destruct (isDir file); simpl; split; try done; eauto.
      intros [msg Hmsg]. done.
    + destruct (isDir file), (isShortcut file); simpl; split; try done; eauto.
      intros [msg Hmsg]. done.
  - destruct (decide (fileMode ≠ AnyFile)) as [Hne|Heq].
    + rewrite bool_decide_eq_false. split; eauto.
    + apply dec_stable in Heq. rewrite bool_decide_eq_false.
      split; [intros [msg Hmsg]; done | done].
Qed.

Lemma visited_bounds n : ∀ i k,
  length job_paths - i ≤ n →
  k ∈ visited (check_from i) → i ≤ k < length job_paths.
Proof.
  induction n as [n IH] using lt_wf_ind. intros i k Hn.
  rewrite check_from_unfold.
  destruct (job_paths !! i) as [p|] eqn:Hp; simpl; [|by intros ?%elem_of_nil].
  apply lookup_lt_Some in Hp.
  destruct (body i p) as [e|i'] eqn:Hb; simpl.
  - intros ->%list_elem_of_singleton. lia.
  - intros [->|Hk]%elem_of_cons; [lia|].
    assert (i ≤ i') by (apply body_Continue in Hb; lia).
    apply (IH (length job_paths - S i')) in Hk; lia.
Qed.

Lemma visited_ge i k : k ∈ visited (check_from i) → i ≤ k.
Proof. intros Hk. by apply (visited_bounds _ i k (Nat.le_refl _)) in Hk as [? _]. Qed.

(** The loop leaves [error] empty exactly when every path it runs the
    body at passes. *)
Lemma check_from_ok_iff n : ∀ i,
  length job_paths - i ≤ n →
  QStr.isEmpty (error (check_from i)) = true ↔
  ∀ k p, k ∈ visited (check_from i) → job_paths !! k = Some p → passes k p = true.
Proof.
  induction n as [n IH] using lt_wf_ind. intros i Hn.
  rewrite check_from_unfold.
  destruct (job_paths !! i) as [p|] eqn:Hp; simpl.
  2:{ split; [|done]. by intros _ k q ?%elem_of_nil. }
  pose proof (lookup_lt_Some _ _ _ Hp) as Hlt.
  destruct (body i p) as [e|i'] eqn:Hb; simpl.
  - rewrite (body_Break_nonempty _ _ _ Hb). split; [done|].
    intros Hall. specialize (Hall i p).
    rewrite list_elem_of_singleton in Hall. specialize (Hall eq_refl Hp).
    assert (passes i p = false) by (apply body_Break_iff; eauto). congruence.
  - assert (i ≤ i') by (apply body_Continue in Hb; lia).
    rewrite (IH (length job_paths - S i')) by lia.
    split.
    + intros Hall k q [->|Hk]%elem_of_cons Hq; [|by eapply Hall].
      assert (q = p) as -> by congruence.
      destruct (passes i p) eqn:Hpass; [done|].
      apply body_Break_iff in Hpass as [e He]. congruence.
    + intros Hall k q Hk. apply Hall. by right.
Qed.

Lemma check_ok_iff :
  QStr.isEmpty (error check) = true ↔
  ∀ k p, k ∈ visited check → job_paths !! k = Some p → passes k p = true.
Proof. apply (check_from_ok_iff (length job_paths - 0)). lia. Qed.

(** If every path passes, the loop leaves [error] empty. *)
Lemma check_ok_if_all_pass :
  (∀ k p, job_paths !! k = Some p → passes k p = true) →
  QStr.isEmpty (error check) = true.
Proof. intros Hall. apply check_ok_iff. eauto. Qed.

Lemma skipped_not_visited n : ∀ i k p,
  length job_paths - i ≤ n →
  job_paths !! k = Some p →
  body k p = Continue (S k) →
  k ∈ visited (check_from i) →
  S k ∉ visited (check_from i).
Proof.
  induction n as [n IH] using lt_wf_ind. intros i k p Hn Hp Hb.
  rewrite check_from_unfold.
  destruct (job_paths !! i) as [q|] eqn:Hq; simpl; [|by intros ?%elem_of_nil].
  pose proof (lookup_lt_Some _ _ _ Hq) as Hlt.
  destruct (body i q) as [e|i'] eqn:Hbi; simpl.
  - intros ->%list_elem_of_singleton. congruence.
  - assert (i ≤ i') by (apply body_Continue in Hbi; lia).
    intros [->|Hk]%elem_of_cons.
    + assert (q = p) as -> by congruence.
      assert (i' = S i) as -> by congruence.
      intros [?|Hin]%elem_of_cons; [lia|].
      apply visited_ge in Hin. lia.
    + pose proof (visited_ge _ _ Hk).
      intros [?|Hin]%elem_of_cons; [lia|].
      by apply (IH (length job_paths - S i') ltac:(lia) (S i') k p ltac:(lia)) in Hin.
Qed.

(** C7, amended. When the body runs at index [i], the path there has no matching
    file info and the file mode is [AnyFile], the body ends with [i]
    already incremented, the loop increments it again and goes on from
    [i + 2]; the body never runs at [i + 1], so that path is not
    checked. *)
Theorem missing_file_info_skips_next_path i p :
  fileMode = AnyFile →
  job_paths !! i = Some p →
  file_info_for job_files i p = None →
  body i p = Continue (S i) ∧
  visited (check_from i) = i :: visited (check_from (S (S i))) ∧
  (i ∈ visited check → S i ∉ visited check).
Proof.
  intros Hmode Hp Hnone.
  assert (Hb : body i p = Continue (S i)).
  { unfold FileDialog.body. rewrite Hnone.
    destruct (decide (fileMode ≠ AnyFile)); [done|done]. }
  split; [done|]. split.
  - rewrite (check_from_unfold i), Hp, Hb. done.
  - apply (skipped_not_visited (length job_paths - 0) 0 i p); [lia|done|done].
Qed.

End ValidationFacts.

(** ** The dialog *)

Section DialogFacts.

Import FileDialog.

Context `{Toolkit}.

(** *** What a call leaves untouched *)

Lemma foldl_appendFullPath_frame (names : list QString) (d : Dialog) :
  ui (foldl appendFullPath d names) = ui d ∧
  fileMode_ (foldl appendFullPath d names) = fileMode_ d ∧
  effects (foldl appendFullPath d names) = effects d.
Proof.
  revert d. induction names as [|name names IH]; intros d; [done|].
  simpl. destruct (IH (appendFullPath d name)) as (-> & -> & ->). done.
Qed.

(** [accept()] either returns after the message box, or starts the job
    from a state in which the Ok button is disabled. *)
Lemma accept_cases (d : Dialog) :
  (QStr.isEmpty (fileName (ui d)) = true ∧ fileMode_ d ≠ Directory ∧
   accept d = perform (QMessageBox_critical "Error" "Please select a file")
                      (set_selectedFiles_ [] d))
  ∨ (∃ d', okEnabled (ui d') = false ∧
           folderView (ui d') = folderView (ui d) ∧
           fileMode_ d' = fileMode_ d ∧
           accept d = perform (FileInfoJob_runAsync (selectedFiles_ d')) d').
Proof.
  unfold accept. simpl.
  destruct (QStr.isEmpty (fileName (ui d))) eqn:Hempty.
  - destruct (decide (fileMode_ d = Directory)) as [Hdir|Hdir].
    + right. eexists. split; [|split; [|split; [|reflexivity]]]; done.
    + left. done.
  - right. eexists. split; [|split; [|split; [|reflexivity]]]; simpl;
      try done;
      match goal with
      | |- context [foldl appendFullPath ?d0 ?names] =>
          destruct (foldl_appendFullPath_frame names d0) as (Hui & Hmode & _)
      end.
    + by rewrite Hui.
    + by rewrite Hmode.
Qed.

Lemma accept_frame (d : Dialog) :
  folderView (ui (accept d)) = folderView (ui d) ∧
  fileMode_ (accept d) = fileMode_ d.
Proof.
  destruct (accept_cases d) as [(_ & _ & ->)|(d' & _ & Hview & Hmode & ->)]; done.
Qed.

Lemma doAccept_frame (d : Dialog) :
  ui (doAccept d) = ui d ∧ fileMode_ (doAccept d) = fileMode_ d ∧
  selectedFiles_ (doAccept d) = selectedFiles_ d.
Proof.
  destruct d as [u vm fm am dp sel filt suf pats log].
  unfold doAccept. cbn.
  destruct sel as [|url [|url' urls]]; done.
Qed.

Lemma onFileInfoJobFinished_frame (job : FinishedJob) (d : Dialog) :
  folderView (ui (onFileInfoJobFinished job d)) = folderView (ui d) ∧
  fileMode_ (onFileInfoJobFinished job d) = fileMode_ d.
Proof.
  unfold onFileInfoJobFinished.
  destruct (isCancelled job); [done|].
  destruct (QStr.isEmpty _); [|done].
  destruct (doAccept_frame d) as (Hui & Hmode & _).
  change (folderView (ui (doAccept d)) = folderView (ui d)
          ∧ fileMode_ (doAccept d) = fileMode_ d).
  by rewrite Hui, Hmode.
Qed.

Lemma update_frame (d : Dialog) :
  ui (update d) = ui d ∧ fileMode_ (update d) = fileMode_ d.
Proof. done. Qed.

Lemma selectNameFilter_frame (filter : QString) (d : Dialog) :
  folderView (ui (selectNameFilter filter d)) = folderView (ui d) ∧
  fileMode_ (selectNameFilter filter d) = fileMode_ d.
Proof. unfold selectNameFilter. by destruct (decide _). Qed.

(** *** The two invariants *)

Lemma updateSelectionMode_follows (d : Dialog) :
  selection_follows_mode (updateSelectionMode d) ∧
  fileMode_ (updateSelectionMode d) = fileMode_ d.
Proof.
  unfold selection_follows_mode, updateSelectionMode. simpl.
  by destruct (fileMode_ d).
Qed.

Lemma setViewMode_follows (mode : ViewMode) (d : Dialog) :
  selection_follows_mode (setViewMode mode d) ∧
  fileMode_ (setViewMode mode d) = fileMode_ d.
Proof.
  unfold setViewMode.
  by destruct (updateSelectionMode_follows
                 (with_ui (with_folderView (FolderView_setViewMode mode))
                          (set_viewMode_ mode d))) as [? ->].
Qed.

Lemma setFileMode_follows (mode : FileMode) (d : Dialog) :
  selection_follows_mode (setFileMode mode d) ∧
  fileMode_ (setFileMode mode d)
    = (if decide (mode = DirectoryOnly) then Directory else mode).
Proof.
  unfold setFileMode.
  by destruct (updateSelectionMode_follows
                 (set_fileMode_
                    (if decide (mode = DirectoryOnly) then Directory else mode) d))
    as [? ->].
Qed.

Lemma FileDialog_new_follows (dir : option FilePath) :
  selection_follows_mode (FileDialog_new dir) ∧
  fileMode_ (FileDialog_new dir) = AnyFile.
Proof.
  unfold selection_follows_mode, FileDialog_new, setViewMode, updateSelectionMode.
  by destruct dir.
Qed.

(** Every call keeps both: the selection mode of the view is the one of
    the file mode, and the file mode is not [DirectoryOnly]. *)
Lemma call_keeps (d : Dialog) (c : Call) :
  selection_follows_mode d ∧ fileMode_ d ≠ DirectoryOnly →
  selection_follows_mode (call d c) ∧ fileMode_ (call d c) ≠ DirectoryOnly.
Proof.
  unfold selection_follows_mode. intros [Hsel Hmode].
  destruct c as [| |job|directory|selFiles|action active|mode|mode|mode
                |label text|filter]; unfold call.
  - by destruct (accept_frame d) as [-> ->].
  - done.
  - by destruct (onFileInfoJobFinished_frame job d) as [-> ->].
  - done.
  - done.
  - unfold onViewModeToggled. destruct active; [|done].
    destruct action; try done;
      match goal with
      | |- context [setViewMode ?m d] =>
          destruct (setViewMode_follows m d) as [? ->]; done
      end.
  - by destruct (setViewMode_follows mode d) as [? ->].
  - destruct (setFileMode_follows mode d) as [? ->]. split; [done|].
    by destruct mode.
  - done.
  - by destruct label.
  - by destruct (selectNameFilter_frame filter d) as [-> ->].
Qed.

Lemma after_calls_keeps (dir : option FilePath) (cs : list Call) :
  selection_follows_mode (after_calls dir cs) ∧
  fileMode_ (after_calls dir cs) ≠ DirectoryOnly.
Proof.
  unfold after_calls.
  induction cs as [|c cs IH] using rev_ind.
  - destruct (FileDialog_new_follows dir) as [? Hm]. simpl.
    split; [done|]. by rewrite Hm.
  - rewrite foldl_app. simpl. by apply call_keeps.
Qed.

(** *** The statements *)

(** C4. A failed attempt leaves [selectedFiles_] empty: when [accept()]
    finds the file-name entry empty in a file mode other than
    [Directory]; when the job was cancelled, in which case the dialog is
    rejected as well; and when the check of the job's answer sets
    [error], in which case the message box is shown instead of the
    dialog being accepted. *)
Theorem failed_accept_leaves_no_selection (d : Dialog) (job : FinishedJob) :
  (QStr.isEmpty (fileName (ui d)) = true → fileMode_ d ≠ Directory →
   selectedFiles (accept d) = []) ∧
  (isCancelled job = true →
   selectedFiles (onFileInfoJobFinished job d) = [] ∧
   effects (onFileInfoJobFinished job d) = effects d ++ [QDialog_reject]) ∧
  (isCancelled job = false →
   QStr.isEmpty (error (check (fileMode_ d) (paths job) (files job))) = false →
   selectedFiles (onFileInfoJobFinished job d) = [] ∧
   effects (onFileInfoJobFinished job d)
     = effects d
       ++ [QMessageBox_critical "Error"
             (error (check (fileMode_ d) (paths job) (files job)))]).
Proof.
  split; [|split].
  - intros Hempty Hmode. unfold selectedFiles, accept. simpl.
    rewrite Hempty. by destruct (decide (fileMode_ d = Directory)).
  - intros Hc. unfold selectedFiles, onFileInfoJobFinished. by rewrite Hc.
  - intros Hc Herr. unfold selectedFiles, onFileInfoJobFinished.
    by rewrite Hc, Herr.
Qed.

Import ProgramOrder.



















(** The label texts that do come back. *)
Lemma labelText_setLabelText_labels (label : DialogLabel) (t : QString) (d : Dialog) :
  label = LookIn ∨ label = FileName ∨ label = FileType →
  labelText label (setLabelText label t d) = t.
Proof. by intros [->|[->| ->]]. Qed.

(** C6, at the labels [Accept] and [Reject]: [labelText] answers the
    empty text whatever [setLabelText] has stored in the button, so a
    text that is not empty does not come back. *)
Theorem labelText_of_button_is_empty (t : QString) (d : Dialog) :
  labelText Accept (setLabelText Accept t d) = EmptyString ∧
  labelText Reject (setLabelText Reject t d) = EmptyString ∧
  okText (ui (setLabelText Accept t d)) = t ∧
  cancelText (ui (setLabelText Reject t d)) = t.
Proof. done. Qed.

Lemma nameMatched_exists (name : QString) (patterns : list QRegExp) :
  nameMatched name patterns = true ↔
  ∃ re, re ∈ patterns ∧ QRegExp_exactMatch re name = true.
Proof.
  induction patterns as [|re patterns IH]; simpl.
  - split; [done|]. by intros (re & ?%elem_of_nil & _).
  - destruct (QRegExp_exactMatch re name) eqn:Hre.
    + split; [|done]. intros _. exists re. split; [left|done].
    + rewrite IH. split.
      * intros (re' & Hin & Hm). exists re'. split; [by right|done].
      * intros (re' & [->|Hin]%elem_of_cons & Hm); [congruence|eauto].
Qed.

Lemma update_patterns (d : Dialog) :
  ∃ globs, patterns_ (update d)
           = (λ glob, mkQRegExp glob CaseInsensitive Wildcard) <$> globs.
Proof.
  unfold update. simpl.
  match goal with |- context [foldl ?f [] ?l] => generalize l end.
  intros globs. exists globs.
  assert (∀ acc, foldl (λ patterns glob,
                    patterns ++ [mkQRegExp glob CaseInsensitive Wildcard]) acc globs
                 = acc ++ ((λ glob, mkQRegExp glob CaseInsensitive Wildcard) <$> globs))
    as Hfold.
  { induction globs as [|g globs IH]; intros acc; simpl.
    - by rewrite app_nil_r.
    - by rewrite IH, <- app_assoc. }
  by rewrite Hfold.
Qed.

(** C8, amended. In the file mode [Directory] a row is accepted exactly
    when it is a directory whose display name matches one of [patterns_];
    in every other file mode a row is accepted exactly when it is a
    directory or its display name matches one of [patterns_].  The
    patterns [update()] stores are case-insensitive wildcards. *)
Theorem filterAcceptsRow_by_mode (d : Dialog) (info : FileInfo) :
  (filterAcceptsRow d info = true ↔
   if decide (fileMode_ d = Directory) then
     isDir info = true ∧
     ∃ re, re ∈ patterns_ d ∧ QRegExp_exactMatch re (displayName info) = true
   else
     isDir info = true ∨
     ∃ re, re ∈ patterns_ d ∧ QRegExp_exactMatch re (displayName info) = true) ∧
  (∀ re, re ∈ patterns_ (update d) →
         caseSensitivity re = CaseInsensitive ∧ patternSyntax re = Wildcard).
Proof.
  split.
  - unfold filterAcceptsRow.
    destruct (decide (fileMode_ d = Directory)) as [Hdir|Hdir];
      destruct (isDir info); simpl; rewrite ?nameMatched_exists.
    + split; [by intros ?|by intros [_ ?]].
    + split; [done|by intros [? _]].
    + split; [by left|done].
    + split; [by right|by intros [?|?]].
  - intros re. destruct (update_patterns d) as [globs ->].
    by intros (glob & -> & _)%list_elem_of_fmap.
Qed.

(** C9. After the constructor, after [setFileMode] and after
    [setViewMode], and so after any sequence of calls, the selection
    mode of the view is [ExtendedSelection] if the file mode is
    [ExistingFiles] and [SingleSelection] otherwise. *)
Theorem selection_mode_follows_file_mode :
  (∀ dir, selection_follows_mode (FileDialog_new dir)) ∧
  (∀ mode d, selection_follows_mode (setFileMode mode d)) ∧
  (∀ mode d, selection_follows_mode (setViewMode mode d)) ∧
  (∀ dir cs, selection_follows_mode (after_calls dir cs)) ∧
  (∀ m, selectionMode_for m
        = if decide (m = ExistingFiles) then ExtendedSelection
          else SingleSelection).
Proof.
  split; [|split; [|split; [|split]]].
  - intros dir. apply FileDialog_new_follows.
  - intros mode d. apply setFileMode_follows.
  - intros mode d. apply setViewMode_follows.
  - intros dir cs. apply after_calls_keeps.
  - by intros [].
Qed.

(** C10. [fileMode_] is [AnyFile] after construction, [setFileMode]
    stores [Directory] for [DirectoryOnly], and after any sequence of
    calls [fileMode_] is not [DirectoryOnly]. *)
Theorem fileMode_never_DirectoryOnly :
  (∀ dir, fileMode_ (FileDialog_new dir) = AnyFile) ∧
  (∀ d, fileMode_ (setFileMode DirectoryOnly d) = Directory) ∧
  (∀ mode d, fileMode_ (setFileMode mode d) ≠ DirectoryOnly) ∧
  (∀ dir cs, fileMode_ (after_calls dir cs) ≠ DirectoryOnly).
Proof.
  split; [|split; [|split]].
  - intros dir. apply FileDialog_new_follows.
  - intros d. by destruct (setFileMode_follows DirectoryOnly d) as [_ ->].
  - intros mode d. destruct (setFileMode_follows mode d) as [_ ->].
    by destruct mode.
  - intros dir cs. apply after_calls_keeps.
Qed.

End DialogFacts.

(** ** The session *)

Section SessionFacts.

Import FileDialog Session.

Abbreviation onFileInfoJobFinished := (@onFileInfoJobFinished Desktop.toolkit).
Abbreviation accept := (@accept Desktop.toolkit).
Abbreviation filterAcceptsRow := (@filterAcceptsRow Desktop.toolkit).

(** C3, at the session: in the file mode [AnyFile] the names of a missing
    file and of a folder are entered; the job is not cancelled and answers
    with the folder's file info at position 1; the path at position 1
    does not pass the validation, and still [doAccept] runs: the two
    paths are announced with [filesSelected] and the dialog is accepted,
    without any message box. *)
Theorem accepted_with_unchecked_folder :
  fileMode_ waiting = AnyFile ∧
  selectedFiles_ waiting = [new_txt; sub] ∧
  isCancelled (sender false job_done) = false ∧
  paths (sender false job_done) !! 1 = Some sub ∧
  files (sender false job_done) !! 1 = Some (mkFileInfo sub true false "sub") ∧
  passes_validation AnyFile (files (sender false job_done)) 1 sub = false ∧
  visited (@check Desktop.toolkit AnyFile (paths (sender false job_done))
             (files (sender false job_done))) = [0] ∧
  effects answered
    = effects waiting ++ [filesSelected [new_txt; sub]; QDialog_accept] ∧
  selectedFiles answered = [new_txt; sub].
Proof. repeat split; reflexivity. Qed.

(** At the session: the text stored for [Accept] does not come back. *)
Example labelText_Accept_Open :
  labelText Accept (setLabelText Accept "Open" opened) = EmptyString ∧
  okText (ui (setLabelText Accept "Open" opened)) = "Open".
Proof. split; reflexivity. Qed.

(** The filter as the specification words it fails at the session: in
    the file mode [Directory], with the name filter of text files, the
    folder [Documents] is a directory and is not accepted. *)
Lemma directory_row_rejected_by_name :
  fileMode_ folders_only = Directory ∧
  isDir documents = true ∧
  filterAcceptsRow folders_only documents = false ∧
  ¬ @accepts_as_specified Desktop.toolkit folders_only documents.
Proof.
  repeat split; try reflexivity.
  unfold accepts_as_specified. simpl.
  intros [_ Hacc]. specialize (Hacc eq_refl). vm_compute in Hacc. discriminate.
Qed.

Lemma filterAcceptsRow_by_mode_witness :
  filterAcceptsRow folders_only old_txt = true ∧
  caseSensitivity (mkQRegExp "*.txt" CaseInsensitive Wildcard) = CaseInsensitive ∧
  patternSyntax (mkQRegExp "*.txt" CaseInsensitive Wildcard) = Wildcard.
Proof.
  destruct (@filterAcceptsRow_by_mode Desktop.toolkit folders_only old_txt)
    as [Hrow _].
  destruct (@filterAcceptsRow_by_mode Desktop.toolkit folders_only old_txt)
    as [_ Hpat].
  split.
  - apply Hrow. simpl. split; [reflexivity|].
    exists (mkQRegExp "*.txt" CaseInsensitive Wildcard).
    split; [left|reflexivity].
  - apply Hpat. left.
Defined.

Lemma run_cancellation_is_early_exit_witness :
  FileInfoJob.monotone_flag cancelled_from_2 ∧
  FileInfoJob.results_ (FileInfoJob.run query_info cancelled_from_2 job4)
    = [query_info notes_txt; query_info sub] ∧
  FileInfoJob.emitted (FileInfoJob.run query_info cancelled_from_2 job4)
    = [FileInfoJob.gotInfo notes_txt (query_info notes_txt);
       FileInfoJob.gotInfo sub (query_info sub);
       FileInfoJob.finished].
Proof.
  assert (Hmono : FileInfoJob.monotone_flag cancelled_from_2).
  { intros m n Hle. unfold cancelled_from_2. rewrite !Nat.leb_le. lia. }
  split; [exact Hmono|].
  destruct (run_cancellation_is_early_exit query_info cancelled_from_2 job4 Hmono)
    as [_ Hfirst].
  apply (Hfirst 2).
  - intros i Hi. destruct i as [|[|i]]; [reflexivity|reflexivity|lia].
  - reflexivity.
Defined.

Lemma failed_accept_leaves_no_selection_witness :
  selectedFiles (accept opened) = [] ∧
  (selectedFiles (onFileInfoJobFinished (sender true job_done) waiting) = [] ∧
   effects (onFileInfoJobFinished (sender true job_done) waiting)
     = effects waiting ++ [QDialog_reject]) ∧
  (selectedFiles (onFileInfoJobFinished (sender false job_done) waiting_existing) = [] ∧
   effects (onFileInfoJobFinished (sender false job_done) waiting_existing)
     = effects waiting_existing
       ++ [QMessageBox_critical "Error"
             ("Path " +:+ quoted new_txt +:+ " does not exist")]).
Proof.
  split; [|split].
  - apply (proj1 (@failed_accept_leaves_no_selection Desktop.toolkit
                    opened (sender true job_done))); [reflexivity|discriminate].
  - apply (proj1 (proj2 (@failed_accept_leaves_no_selection Desktop.toolkit
                           waiting (sender true job_done)))). reflexivity.
  - apply (proj2 (proj2 (@failed_accept_leaves_no_selection Desktop.toolkit
                           waiting_existing (sender false job_done))));
      reflexivity.
Defined.

Lemma missing_file_info_skips_next_path_witness :
  @body Desktop.toolkit AnyFile (FileInfoJob.results_ job_done) 0 new_txt
    = Continue 1 ∧
  visited (@check_from Desktop.toolkit AnyFile [new_txt; sub]
             (FileInfoJob.results_ job_done) 0)
    = 0 :: visited (@check_from Desktop.toolkit AnyFile [new_txt; sub]
                      (FileInfoJob.results_ job_done) 2) ∧
  1 ∉ visited (@check Desktop.toolkit AnyFile [new_txt; sub]
                 (FileInfoJob.results_ job_done)).
Proof.
  destruct (@missing_file_info_skips_next_path Desktop.toolkit AnyFile
              [new_txt; sub] (FileInfoJob.results_ job_done) 0 new_txt
              eq_refl eq_refl eq_refl) as (Hbody & Hvisited & Hskip).
  split; [exact Hbody|]. split; [exact Hvisited|].
  apply Hskip. left.
Defined.

End SessionFacts.

(** * Further properties *)

(** ** The file-info job, path by path *)

Section FileInfoJobMore.

Import FileInfoJob.

Variable query_info : FilePath → FileInfo.
Variable cancelledAt : nat → bool.

Abbreviation run' := (run query_info cancelledAt).
Abbreviation queried' := (queried cancelledAt).
Abbreviation got' := (λ p, gotInfo p (query_info p)).

Lemma elem_of_queried n (ps : list FilePath) p :
  p ∈ queried' n ps ↔ ∃ i, ps !! i = Some p ∧ cancelledAt (n + i) = false.
Proof.
  revert n. induction ps as [|q ps IH]; intros n.
  - rewrite queried_nil. split; [by intros ?%elem_of_nil|by intros (i & ? & _)].
  - rewrite queried_cons. split.
    + destruct (cancelledAt n) eqn:Hn.
      * intros (i & Hi & Hc)%IH. exists (S i). split; [done|].
        by replace (n + S i) with (S n + i) by lia.
      * intros [->|(i & Hi & Hc)%IH]%elem_of_cons.
        -- exists 0. split; [done|]. by rewrite Nat.add_0_r.
        -- exists (S i). split; [done|].
           by replace (n + S i) with (S n + i) by lia.
    + intros ([|i] & Hi & Hc).
      * simpl in Hi. injection Hi as ->. rewrite Nat.add_0_r in Hc.
        rewrite Hc. left.
      * simpl in Hi. replace (n + S i) with (S n + i) in Hc by lia.
        assert (p ∈ queried' (S n) ps) by (apply IH; eauto).
        destruct (cancelledAt n); [done|by right].
Qed.

Lemma queried_none n (ps : list FilePath) :
  (∀ i, i < length ps → cancelledAt (n + i) = true) → queried' n ps = [].
Proof.
  revert n. induction ps as [|p ps IH]; intros n Hset; [done|].
  rewrite queried_cons.
  rewrite <- (Nat.add_0_r n) at 1. rewrite (Hset 0) by (simpl; lia).
  apply IH. intros i Hi.
  replace (S n + i) with (n + S i) by lia. apply Hset. simpl. lia.
Qed.

(** X1. A job whose checks all read a clear flag answers with one
    [FileInfo] per path, at the position of the path, and announces the
    paths in order before [finished]. *)
Theorem run_uncancelled_answers_every_path (j : Job) :
  (∀ i, i < length (paths_ j) → cancelledAt (polls j + i) = false) →
  results_ (run' j) = results_ j ++ (query_info <$> paths_ j) ∧
  emitted (run' j) = emitted j ++ (got' <$> paths_ j) ++ [finished] ∧
  (∀ i p, paths_ j !! i = Some p →
          results_ (run' j) !! (length (results_ j) + i) = Some (query_info p)).
Proof.
  intros Hclear.
  destruct (run_queried query_info cancelledAt j) as [Hr He].
  rewrite (queried_all cancelledAt _ _ Hclear) in Hr, He.
  split; [done|]. split; [done|].
  intros i p Hp. rewrite Hr, lookup_app_r by lia.
  replace (length (results_ j) + i - length (results_ j)) with i by lia.
  by rewrite list_lookup_fmap, Hp.
Qed.

(** X2. A job whose checks all read a set flag, and so also a job on the
    empty path list, appends nothing and emits [finished] only. *)
Theorem run_all_cancelled_only_finishes (j : Job) :
  (∀ i, i < length (paths_ j) → cancelledAt (polls j + i) = true) →
  results_ (run' j) = results_ j ∧
  emitted (run' j) = emitted j ++ [finished].
Proof.
  intros Hset.
  destruct (run_queried query_info cancelledAt j) as [Hr He].
  rewrite (queried_none _ _ Hset) in Hr, He.
  simpl in Hr, He. by rewrite app_nil_r in Hr.
Qed.

(** X3. Whatever the flag does, a path is announced by a new [gotInfo]
    exactly when the check of its own iteration read a clear flag; the
    checks of the other iterations do not matter. *)
Theorem gotInfo_iff_own_check_clear (j : Job) p fileInfo :
  gotInfo p fileInfo ∈ emitted (run' j) ↔
  gotInfo p fileInfo ∈ emitted j ∨
  (fileInfo = query_info p ∧
   ∃ i, paths_ j !! i = Some p ∧ cancelledAt (polls j + i) = false).
Proof.
  destruct (run_queried query_info cancelledAt j) as [_ He].
  rewrite He, !elem_of_app, list_elem_of_fmap, list_elem_of_singleton.
  split.
  - intros [?|[(q & Heq & Hq)|?]]; [by left| |done].
    injection Heq as -> ->. right. split; [done|]. by apply elem_of_queried.
  - intros [?|[-> Hex]]; [by left|].
    right. left. exists p. split; [done|]. by apply elem_of_queried.
Qed.

End FileInfoJobMore.

(** ** The check of the job's answer, when no path is skipped *)

Lemma check_loop_step `{Toolkit} fileMode (job_paths : list FilePath)
    (job_files : list FileInfo) i :
  FileDialog.check_from fileMode job_paths job_files i =
  match job_paths !! i with
  | None => FileDialog.mkChecked EmptyString []
  | Some p =>
      match FileDialog.body fileMode job_files i p with
      | FileDialog.Break e => FileDialog.mkChecked e [i]
      | FileDialog.Continue i' =>
          FileDialog.mkChecked
            (FileDialog.error (FileDialog.check_from fileMode job_paths job_files (S i')))
            (i :: FileDialog.visited
                    (FileDialog.check_from fileMode job_paths job_files (S i')))
      end
  end.
Proof. apply check_from_unfold. Qed.

Section ValidationMore.

Import FileDialog Notions.

Context `{Toolkit}.

Variable fileMode : FileMode.
Variable job_paths : list FilePath.
Variable job_files : list FileInfo.

Abbreviation check_from' := (check_from fileMode job_paths job_files).
Abbreviation check' := (check fileMode job_paths job_files).
Abbreviation body' := (body fileMode job_files).
Abbreviation passes' := (passes_validation fileMode job_files).
Abbreviation nothing_skipped' := (nothing_skipped fileMode job_paths job_files).

Lemma body_no_skip i p i' :
  nothing_skipped' → job_paths !! i = Some p →
  body' i p = Continue i' → i' = i.
Proof.
  intros Hns Hp Hb.
  destruct (body_Continue _ _ _ _ _ Hb) as [->|[-> Hnone]]; [done|].
  exfalso. specialize (Hns i p Hp Hnone).
  unfold FileDialog.body in Hb. rewrite Hnone in Hb.
  destruct (decide (fileMode ≠ AnyFile)); done.
Qed.

Lemma accepted_visits_all n : ∀ i k,
  nothing_skipped' →
  length job_paths - i ≤ n →
  QStr.isEmpty (error (check_from' i)) = true →
  i ≤ k < length job_paths →
  k ∈ visited (check_from' i).
Proof.
  induction n as [n IH] using lt_wf_ind. intros i k Hns Hn.
  rewrite check_loop_step.
  destruct (job_paths !! i) as [p|] eqn:Hp; simpl.
  2:{ apply lookup_ge_None in Hp. lia. }
  pose proof (lookup_lt_Some _ _ _ Hp) as Hlt.
  destruct (body' i p) as [e|i'] eqn:Hb; simpl.
  - by rewrite (body_Break_nonempty _ _ _ _ _ Hb).
  - apply (body_no_skip _ _ _ Hns Hp) in Hb as ->.
    intros Hok Hk. destruct (decide (k = i)) as [->|Hne]; [left|right].
    apply (IH (length job_paths - S i)); [lia|done|lia|done|lia].
Qed.

Lemma first_failure_from n : ∀ i k p e,
  nothing_skipped' →
  length job_paths - i ≤ n →
  i ≤ k →
  job_paths !! k = Some p →
  body' k p = Break e →
  (∀ j q, i ≤ j < k → job_paths !! j = Some q → passes' j q = true) →
  error (check_from' i) = e ∧ visited (check_from' i) = seq i (S k - i).
Proof.
  induction n as [n IH] using lt_wf_ind. intros i k p e Hns Hn Hik Hp Hb Hbefore.
  pose proof (lookup_lt_Some _ _ _ Hp) as Hlt.
  rewrite check_loop_step.
  destruct (job_paths !! i) as [q|] eqn:Hq.
  2:{ apply lookup_ge_None in Hq. lia. }
  destruct (decide (i = k)) as [->|Hne].
  - assert (q = p) as -> by congruence. rewrite Hb. simpl.
    by replace (S k - k) with 1 by lia.
  - destruct (body' i q) as [e'|i'] eqn:Hbi.
    + assert (passes' i q = false) as Hf by (apply body_Break_iff; eauto).
      rewrite (Hbefore i q) in Hf by (done || lia). done.
    + apply (body_no_skip _ _ _ Hns Hq) in Hbi as ->.
      destruct (IH (length job_paths - S i) ltac:(lia) (S i) k p e)
        as [He Hv]; [done|lia|lia|done|done| |].
      { intros j r Hj. apply Hbefore. lia. }
      simpl. rewrite He, Hv. split; [done|].
      replace (S k - i) with (S (S k - S i)) by lia. done.
Qed.

(** X4. When no path is skipped, that is in every file mode but
    [AnyFile], and in [AnyFile] when every path has its file info at its
    own position, the loop leaves [error] empty exactly when every path
    passes the validation. *)
Theorem check_ok_iff_all_pass_when_nothing_skipped :
  nothing_skipped fileMode job_paths job_files →
  QStr.isEmpty (error check') = true ↔
  ∀ k p, job_paths !! k = Some p → passes' k p = true.
Proof.
  intros Hns. split; [|apply check_ok_if_all_pass].
  intros Hok k p Hp.
  apply (proj1 (check_ok_iff fileMode job_paths job_files) Hok k p); [|done].
  apply (accepted_visits_all (length job_paths - 0) 0 k Hns); [lia|done|].
  apply lookup_lt_Some in Hp. lia.
Qed.

(** X5. When no path is skipped, the loop stops at the first path that
    does not pass: [error] is the message of that path, and the body has
    run at the positions up to it and at no later one. *)
Theorem check_reports_first_failure k p e :
  nothing_skipped fileMode job_paths job_files →
  job_paths !! k = Some p →
  body fileMode job_files k p = Break e →
  (∀ j q, j < k → job_paths !! j = Some q → passes' j q = true) →
  error check' = e ∧ visited check' = seq 0 (S k).
Proof.
  intros Hns Hp Hb Hbefore.
  assert (error (check_from' 0) = e ∧ visited (check_from' 0) = seq 0 (S k - 0))
    as [He Hv].
  { apply (first_failure_from (length job_paths - 0) 0 k p e); try done; try lia.
    intros j q Hj. apply Hbefore. lia. }
  unfold FileDialog.check. rewrite He, Hv. by rewrite Nat.sub_0_r.
Qed.

End ValidationMore.

(** ** Facts on the [QString] operations *)

Section QStrFacts.

Import Notions.

Lemma index_char_none (ch : ascii) (s : QString) (from : nat) :
  occurs ch s = false →
  String.index from (String ch EmptyString) s = None.
Proof.
  revert from. induction s as [|a s IH]; intros from Hocc.
  - by destruct from.
  - simpl in Hocc. apply orb_false_elim in Hocc as [Ha Hs].
    destruct from as [|from]; simpl.
    + destruct (ascii_dec ch a) as [->|Hne].
      * by rewrite Ascii.eqb_refl in Ha.
      * by rewrite (IH 0 Hs).
    + by rewrite (IH from Hs).
Qed.

Lemma indexOf_none (ch : ascii) (s : QString) (from : nat) :
  occurs ch s = false → QStr.indexOf ch from s = (-1)%Z.
Proof. intros Hocc. unfold QStr.indexOf. by rewrite index_char_none. Qed.

Lemma indexOf_head (ch : ascii) (s : QString) :
  QStr.indexOf ch 0 (String ch s) = 0%Z.
Proof.
  unfold QStr.indexOf. simpl.
  destruct (ascii_dec ch ch); [|done].
  by destruct s.
Qed.

Lemma lastIndexOf_from_spec (ch : ascii) (s : QString) : ∀ i found,
  (occurs ch s = false → QStr.lastIndexOf_from ch i found s = found) ∧
  (occurs ch s = true → (Z.of_nat i ≤ QStr.lastIndexOf_from ch i found s)%Z).
Proof.
  induction s as [|a s IH]; intros i found; simpl; [done|].
  destruct (IH (S i) (if Ascii.eqb a ch then Z.of_nat i else found)) as [Hno Hyes].
  destruct (Ascii.eqb a ch) eqn:Ha; simpl.
  - split; [done|]. intros _.
    destruct (occurs ch s) eqn:Hs.
    + specialize (Hyes eq_refl). lia.
    + rewrite (Hno eq_refl). lia.
  - split; [done|]. intros Hs. specialize (Hyes Hs). lia.
Qed.

Lemma lastIndexOf_none (ch : ascii) (s : QString) :
  QStr.lastIndexOf ch s = (-1)%Z ↔ occurs ch s = false.
Proof.
  unfold QStr.lastIndexOf.
  destruct (lastIndexOf_from_spec ch s 0 (-1)%Z) as [Hno Hyes].
  destruct (occurs ch s).
  - split; [|done]. intros Heq. specialize (Hyes eq_refl). lia.
  - split; [done|]. intros _. by apply Hno.
Qed.

End QStrFacts.

(** ** [accept()] on the text of the file-name entry *)

Section AcceptFacts.

Import FileDialog Notions.

Context `{Toolkit}.

Lemma appendFullPath_with_suffix (d : Dialog) (name : QString) :
  appendFullPath d name
  = set_selectedFiles_
      (selectedFiles_ d
       ++ [FilePath_child (directoryPath_ d)
             (with_suffix (defaultSuffix_ d) name)]) d.
Proof.
  unfold appendFullPath, with_suffix.
  destruct (QStr.isEmpty (defaultSuffix_ d)); simpl; [done|].
  destruct (occurs "." name) eqn:Hocc.
  - rewrite bool_decide_eq_false_2; [done|].
    rewrite lastIndexOf_none. congruence.
  - rewrite bool_decide_eq_true_2; [done|]. by apply lastIndexOf_none.
Qed.

(** The selected files after the loop of lines 147-155. *)
Lemma foldl_appendFullPath_selected (names : list QString) (d : Dialog) :
  selectedFiles_ (foldl appendFullPath d names)
  = selectedFiles_ d
    ++ ((λ name, FilePath_child (directoryPath_ d)
                   (with_suffix (defaultSuffix_ d) name)) <$> names).
Proof.
  revert d. induction names as [|name names IH]; intros d; simpl.
  - by rewrite app_nil_r.
  - rewrite IH, appendFullPath_with_suffix. simpl. by rewrite <- app_assoc.
Qed.

(** [accept()] on an entry that is not empty: the selected files are
    the children of the current directory named by the parsed names. *)
Lemma accept_nonempty (d : Dialog) :
  QStr.isEmpty (fileName (ui d)) = false →
  selectedFiles (accept d)
    = (λ name, FilePath_child (directoryPath_ d)
                 (with_suffix (defaultSuffix_ d) name))
        <$> parsed_names (fileName (ui d)) ∧
  effects (accept d)
    = effects d ++ [FileInfoJob_runAsync (selectedFiles (accept d))] ∧
  okEnabled (ui (accept d)) = false.
Proof.
  intros Hne. unfold selectedFiles, accept. cbv zeta.
  change (ui (set_selectedFiles_ [] d)) with (ui d).
  rewrite Hne. fold (parsed_names (fileName (ui d))).
  unfold startFileInfoJob. cbv zeta.
  destruct (foldl_appendFullPath_frame (parsed_names (fileName (ui d)))
              (set_selectedFiles_ [] d)) as (_ & _ & Heff).
  pose proof (foldl_appendFullPath_selected (parsed_names (fileName (ui d)))
                (set_selectedFiles_ [] d)) as Hsel.
  cbn [selectedFiles_ effects ui okEnabled perform with_ui set_okEnabled].
  rewrite Heff, Hsel. done.
Qed.

Lemma accept_without_quotes (d : Dialog) :
  QStr.isEmpty (fileName (ui d)) = false →
  occurs dquote (fileName (ui d)) = false →
  selectedFiles (accept d)
    = [FilePath_child (directoryPath_ d)
         (with_suffix (defaultSuffix_ d) (fileName (ui d)))] ∧
  effects (accept d)
    = effects d ++ [FileInfoJob_runAsync (selectedFiles (accept d))] ∧
  okEnabled (ui (accept d)) = false.
Proof.
  intros Hne Hquote.
  destruct (accept_nonempty d Hne) as (Hsel & Heff & Hok).
  split; [|done]. rewrite Hsel. unfold parsed_names.
  by rewrite (indexOf_none _ _ _ Hquote).
Qed.

(** X6. A name without double quotes in the entry: [accept()] selects
    the one child of the current directory of that name, with the
    default suffix added if there is one and the name has no dot, and
    starts the job on that path alone with the Ok button disabled;
    nothing of an earlier selection is left. *)
Theorem accept_plain_name (d : Dialog) :
  QStr.isEmpty (fileName (ui d)) = false →
  occurs dquote (fileName (ui d)) = false →
  selectedFiles (accept d)
    = [FilePath_child (directoryPath_ d)
         (with_suffix (defaultSuffix_ d) (fileName (ui d)))] ∧
  effects (accept d)
    = effects d ++ [FileInfoJob_runAsync (selectedFiles (accept d))] ∧
  okEnabled (ui (accept d)) = false.
Proof. apply accept_without_quotes. Qed.

(** X7. An empty entry in the file mode [Directory]: [accept()] selects
    the current directory and starts the job on it, with the Ok button
    disabled. *)
Theorem accept_empty_name_selects_directory (d : Dialog) :
  QStr.isEmpty (fileName (ui d)) = true →
  fileMode_ d = Directory →
  selectedFiles (accept d) = [directoryPath_ d] ∧
  effects (accept d) = effects d ++ [FileInfoJob_runAsync [directoryPath_ d]] ∧
  okEnabled (ui (accept d)) = false.
Proof.
  intros Hempty Hmode. unfold selectedFiles, accept. cbv zeta.
  change (ui (set_selectedFiles_ [] d)) with (ui d).
  change (fileMode_ (set_selectedFiles_ [] d)) with (fileMode_ d).
  rewrite Hempty, Hmode. done.
Qed.

End AcceptFacts.

(** ** The text [onSelectionChanged] writes, and [accept()] on it *)

Section SelectionFacts.

Import FileDialog Notions.

Context `{Toolkit}.

Lemma append_cons (a : ascii) (s t : QString) :
  String a s +:+ t = String a (s +:+ t).
Proof. reflexivity. Qed.

Lemma append_nil_l (t : QString) : EmptyString +:+ t = t.
Proof. reflexivity. Qed.

Lemma append_assoc (s1 s2 s3 : QString) : (s1 +:+ s2) +:+ s3 = s1 +:+ s2 +:+ s3.
Proof.
  induction s1 as [|a s1 IH]; [done|].
  by rewrite !append_cons, IH.
Qed.

Lemma append_nil_r (s : QString) : s +:+ EmptyString = s.
Proof.
  induction s as [|a s IH]; [done|].
  by rewrite append_cons, IH.
Qed.

Lemma length_append (s1 s2 : QString) :
  String.length (s1 +:+ s2) = String.length s1 + String.length s2.
Proof.
  induction s1 as [|a s1 IH]; [done|].
  rewrite append_cons. simpl. by rewrite IH.
Qed.

Lemma skipped_iff_not_eligible fileMode fileInfo :
  (if decide (fileMode = Directory) then negb (isDir fileInfo)
   else isDir fileInfo) = negb (eligible fileMode fileInfo).
Proof.
  unfold eligible. destruct (decide (fileMode = Directory)); [done|].
  by rewrite negb_involutive.
Qed.

Lemma base_names_cons fileMode fileInfo (selFiles : list FileInfo) :
  base_names fileMode (fileInfo :: selFiles)
  = if eligible fileMode fileInfo
    then FilePath_baseName (path fileInfo) :: base_names fileMode selFiles
    else base_names fileMode selFiles.
Proof.
  unfold base_names. rewrite filter_cons.
  destruct (eligible fileMode fileInfo) eqn:He.
  - by rewrite decide_True.
  - by rewrite decide_False.
Qed.

Lemma selectionText_multiple fileMode (selFiles : list FileInfo) : ∀ acc,
  selectionText fileMode true selFiles acc
  = match base_names fileMode selFiles with
    | [] => acc
    | names =>
        (if QStr.isEmpty acc then EmptyString else acc +:+ " ")
        +:+ String.concat " " (quoted <$> names)
    end.
Proof.
  induction selFiles as [|fileInfo rest IH]; intros acc; [done|].
  cbn [selectionText]. rewrite skipped_iff_not_eligible, base_names_cons.
  destruct (eligible fileMode fileInfo); cbn [negb]; [|apply IH].
  rewrite IH.
  set (b := FilePath_baseName (path fileInfo)).
  assert (Hpre : (if negb (QStr.isEmpty acc) then acc +:+ " " else acc)
                 = (if QStr.isEmpty acc then EmptyString else acc +:+ " ")).
  { by destruct acc. }
  rewrite Hpre.
  set (pre := if QStr.isEmpty acc then EmptyString else acc +:+ " ").
  destruct (base_names fileMode rest) as [|n ns]; [done|].
  assert (QStr.isEmpty (pre +:+ quoted b) = false) as -> by by destruct pre.
  cbn [fmap list_fmap String.concat].
  by rewrite !append_assoc.
Qed.

Lemma selectionText_single fileMode (selFiles : list FileInfo) : ∀ acc,
  selectionText fileMode false selFiles acc
  = match base_names fileMode selFiles with
    | [] => acc
    | name :: _ => name
    end.
Proof.
  induction selFiles as [|fileInfo rest IH]; intros acc; [done|].
  cbn [selectionText]. rewrite skipped_iff_not_eligible, base_names_cons.
  destruct (eligible fileMode fileInfo); cbn [negb]; [done|apply IH].
Qed.

Lemma onSelectionChanged_fileName (selFiles : list FileInfo) (d : Dialog) :
  fileName (ui (onSelectionChanged selFiles d))
    = (if bool_decide (1 < length selFiles)
       then String.concat " " (quoted <$> base_names (fileMode_ d) selFiles)
       else match base_names (fileMode_ d) selFiles with
            | [] => EmptyString
            | name :: _ => name
            end).
Proof.
  unfold onSelectionChanged. cbn [ui with_ui fileName set_fileName].
  destruct (bool_decide (1 < length selFiles)).
  - rewrite selectionText_multiple.
    by destruct (base_names (fileMode_ d) selFiles).
  - apply selectionText_single.
Qed.

(** X8. [onSelectionChanged] writes into the file-name entry the base
    names of the eligible files only (the directories in the file mode
    [Directory], the other files otherwise): with more than one file
    selected, each name between double quotes and the names separated by
    one space; otherwise the first name alone; and the empty text when no
    selected file is eligible.  Nothing else of the dialog changes. *)
Theorem onSelectionChanged_text (selFiles : list FileInfo) (d : Dialog) :
  fileName (ui (onSelectionChanged selFiles d))
    = (if bool_decide (1 < length selFiles)
       then String.concat " " (quoted <$> base_names (fileMode_ d) selFiles)
       else match base_names (fileMode_ d) selFiles with
            | [] => EmptyString
            | name :: _ => name
            end) ∧
  onSelectionChanged selFiles d
    = with_ui (set_fileName (fileName (ui (onSelectionChanged selFiles d)))) d.
Proof. split; [apply onSelectionChanged_fileName|done]. Qed.

End SelectionFacts.

Section SelectThenAccept.

Import FileDialog Notions.

Context `{Toolkit}.

Lemma lastIndexOf_from_snoc (ch : ascii) (s : QString) : ∀ i found,
  QStr.lastIndexOf_from ch i found (s +:+ String ch EmptyString)
  = Z.of_nat (i + String.length s).
Proof.
  induction s as [|a s IH]; intros i found.
  - simpl. rewrite Ascii.eqb_refl. f_equal. lia.
  - rewrite append_cons. simpl. rewrite IH. f_equal. lia.
Qed.

Lemma substring_prefix (s t : QString) :
  String.substring 0 (String.length s) (s +:+ t) = s.
Proof.
  induction s as [|a s IH]; [by destruct t|].
  rewrite append_cons. simpl. by rewrite IH.
Qed.

(** Quoted names joined by spaces are the names joined by
    quote-space-quote, between two quotes. *)
Lemma concat_quoted (names : list QString) :
  names ≠ [] →
  String.concat " " (quoted <$> names)
  = String dquote (String.concat between_names names +:+ String dquote EmptyString).
Proof.
  induction names as [|n names IH]; [done|]. intros _.
  destruct names as [|m names]; [done|].
  specialize (IH ltac:(done)).
  change (String.concat " " (quoted <$> n :: m :: names))
    with (quoted n +:+ " " +:+ String.concat " " (quoted <$> m :: names)).
  change (String.concat between_names (n :: m :: names))
    with (n +:+ between_names +:+ String.concat between_names (m :: names)).
  rewrite IH. unfold quoted, between_names.
  rewrite !append_cons, !append_assoc, !append_cons, !append_nil_l.
  done.
Qed.

(** What [accept()] reads in a text between two quotes. *)
Lemma parsed_names_between_quotes (inner : QString) :
  parsed_names (String dquote (inner +:+ String dquote EmptyString))
  = QString_split_regexp name_separator inner.
Proof.
  unfold parsed_names. rewrite indexOf_head.
  unfold QStr.lastIndexOf. cbn [QStr.lastIndexOf_from].
  rewrite Ascii.eqb_refl, lastIndexOf_from_snoc.
  rewrite !bool_decide_eq_true_2 by lia. cbn [andb].
  f_equal. unfold QStr.mid.
  replace (Z.of_nat (1 + String.length inner) - 0 - 1)%Z
    with (Z.of_nat (String.length inner)) by lia.
  destruct (Z.ltb_spec (Z.of_nat (String.length inner)) 0); [lia|].
  rewrite Nat2Z.id. change (Z.to_nat (0 + 1)) with 1.
  cbn [String.substring]. apply substring_prefix.
Qed.

(** X9. One eligible file selected, its base name not empty and without
    a double quote: after [onSelectionChanged], [accept()] selects the
    child of the current directory of that base name (with the default
    suffix rule) and starts the job on it. *)
Theorem select_one_then_accept (fileInfo : FileInfo) (d : Dialog) :
  eligible (fileMode_ d) fileInfo = true →
  QStr.isEmpty (FilePath_baseName (path fileInfo)) = false →
  occurs dquote (FilePath_baseName (path fileInfo)) = false →
  selectedFiles (accept (onSelectionChanged [fileInfo] d))
    = [FilePath_child (directoryPath_ d)
         (with_suffix (defaultSuffix_ d) (FilePath_baseName (path fileInfo)))] ∧
  effects (accept (onSelectionChanged [fileInfo] d))
    = effects d
      ++ [FileInfoJob_runAsync
            [FilePath_child (directoryPath_ d)
               (with_suffix (defaultSuffix_ d)
                  (FilePath_baseName (path fileInfo)))]].
Proof.
  intros Hel Hne Hquote.
  pose proof (onSelectionChanged_fileName [fileInfo] d) as Htext.
  rewrite base_names_cons, Hel in Htext.
  rewrite bool_decide_eq_false_2 in Htext by (cbn [length]; lia).
  destruct (accept_without_quotes (onSelectionChanged [fileInfo] d))
    as (Hsel & Heff & _).
  - by rewrite Htext.
  - by rewrite Htext.
  - rewrite Heff, Hsel, Htext. done.
Qed.

(** X10. Several files selected, at least one of them eligible: if the
    regular-expression split of the toolkit returns the base names from
    their text joined by quote-space-quote, then after
    [onSelectionChanged], [accept()] selects the children of the current
    directory of exactly the eligible base names, in the order of the
    selection, and starts the job on them. *)
Theorem select_many_then_accept (selFiles : list FileInfo) (d : Dialog) :
  1 < length selFiles →
  base_names (fileMode_ d) selFiles ≠ [] →
  QString_split_regexp name_separator
    (String.concat between_names (base_names (fileMode_ d) selFiles))
    = base_names (fileMode_ d) selFiles →
  selectedFiles (accept (onSelectionChanged selFiles d))
    = (λ name, FilePath_child (directoryPath_ d)
                 (with_suffix (defaultSuffix_ d) name))
        <$> base_names (fileMode_ d) selFiles ∧
  effects (accept (onSelectionChanged selFiles d))
    = effects d
      ++ [FileInfoJob_runAsync
            (selectedFiles (accept (onSelectionChanged selFiles d)))].
Proof.
  intros Hmany Hnames Hsplit.
  pose proof (onSelectionChanged_fileName selFiles d) as Htext.
  rewrite bool_decide_eq_true_2 in Htext by done.
  rewrite (concat_quoted _ Hnames) in Htext.
  destruct (accept_nonempty (onSelectionChanged selFiles d))
    as (Hsel & Heff & _).
  - by rewrite Htext.
  - rewrite Heff, Hsel, Htext, parsed_names_between_quotes, Hsplit. done.
Qed.

End SelectThenAccept.

(** ** The slot on the finished job, and the job behind it *)

Section FinishFacts.

Import FileDialog Notions.

Context `{Toolkit}.

Lemma doAccept_effects (d : Dialog) :
  effects (doAccept d)
  = effects d
    ++ filesSelected (selectedFiles_ d)
       :: match selectedFiles_ d with
          | [url] => [fileSelected url]
          | _ => []
          end
    ++ [QDialog_accept].
Proof.
  destruct d as [u vm fm am dp sel filt suf pats log].
  unfold doAccept. cbn.
  destruct sel as [|url [|url' urls]]; cbn; by rewrite <- ?app_assoc.
Qed.

(** The three ways the slot ends. *)
Lemma onFileInfoJobFinished_effects (job : FinishedJob) (d : Dialog) :
  effects (onFileInfoJobFinished job d)
  = if isCancelled job then effects d ++ [QDialog_reject]
    else if QStr.isEmpty (error (check (fileMode_ d) (paths job) (files job)))
         then effects (doAccept d)
         else effects d
              ++ [QMessageBox_critical "Error"
                    (error (check (fileMode_ d) (paths job) (files job)))].
Proof.
  unfold onFileInfoJobFinished.
  destruct (isCancelled job); [done|].
  by destruct (QStr.isEmpty _).
Qed.

Lemma last_effect_accept_iff (job : FinishedJob) (d : Dialog) :
  last (effects (onFileInfoJobFinished job d)) = Some QDialog_accept ↔
  isCancelled job = false ∧
  QStr.isEmpty (error (check (fileMode_ d) (paths job) (files job))) = true.
Proof.
  rewrite onFileInfoJobFinished_effects.
  destruct (isCancelled job).
  - rewrite last_snoc. split; [done|by intros [? _]].
  - destruct (QStr.isEmpty _).
    + rewrite doAccept_effects.
      rewrite app_comm_cons, app_assoc, last_snoc. done.
    + rewrite last_snoc. split; [done|by intros [_ ?]].
Qed.

Lemma nothing_skipped_ok_iff fileMode (job_paths : list FilePath)
    (job_files : list FileInfo) :
  nothing_skipped fileMode job_paths job_files →
  QStr.isEmpty (error (check fileMode job_paths job_files)) = true ↔
  ∀ k p, job_paths !! k = Some p →
         passes_validation fileMode job_files k p = true.
Proof.
  intros Hns. split; [|apply check_ok_if_all_pass].
  intros Hok k p Hp.
  apply (proj1 (check_ok_iff fileMode job_paths job_files) Hok k p); [|done].
  apply (accepted_visits_all fileMode job_paths job_files
           (length job_paths - 0) 0 k Hns); [lia|done|].
  apply lookup_lt_Some in Hp. lia.
Qed.

(** X11. When the job was not cancelled and the check leaves [error]
    empty, the slot announces exactly the files [accept()] selected with
    [filesSelected], adds [fileSelected] if and only if exactly one file
    is selected, calls [QDialog::accept] last, and leaves the selection
    as it is. *)
Theorem finished_ok_announces_selection (job : FinishedJob) (d : Dialog) :
  isCancelled job = false →
  QStr.isEmpty (error (check (fileMode_ d) (paths job) (files job))) = true →
  effects (onFileInfoJobFinished job d)
    = effects d
      ++ filesSelected (selectedFiles d)
         :: match selectedFiles d with
            | [url] => [fileSelected url]
            | _ => []
            end
      ++ [QDialog_accept] ∧
  selectedFiles (onFileInfoJobFinished job d) = selectedFiles d.
Proof.
  intros Hc Hok. split.
  - by rewrite onFileInfoJobFinished_effects, Hc, Hok, doAccept_effects.
  - unfold selectedFiles, onFileInfoJobFinished. rewrite Hc, Hok.
    destruct (doAccept_frame d) as (_ & _ & Hsel).
    change (selectedFiles_ (doAccept d) = selectedFiles_ d). exact Hsel.
Qed.

Section WithJob.

Variable query_info : FilePath → FileInfo.
Variable cancelledAt : nat → bool.

(** X12. A fresh job that runs without reading a set flag, on a file
    system whose answers carry the path they were asked for: the slot
    ends in [QDialog::accept] exactly when the slot itself reads the job
    as not cancelled and every path of the job has the type the file
    mode asks for (a directory in the file mode [Directory], neither a
    directory nor a shortcut otherwise); when the slot reads the job as
    cancelled it ends in [QDialog::reject]. *)
Theorem uncancelled_job_accepted_iff_types_ok (pathList : list FilePath)
    (n : nat) (cancelled : bool) (d : Dialog) :
  (∀ p, p ∈ pathList → path (query_info p) = p) →
  (∀ i, i < length pathList → cancelledAt (n + i) = false) →
  (last (effects
           (onFileInfoJobFinished
              (sender cancelled
                 (FileInfoJob.run query_info cancelledAt
                    (FileInfoJob.mkJob pathList [] [] n))) d))
     = Some QDialog_accept ↔
   cancelled = false ∧
   ∀ p, p ∈ pathList → type_ok (fileMode_ d) (query_info p) = true) ∧
  (cancelled = true →
   last (effects
           (onFileInfoJobFinished
              (sender cancelled
                 (FileInfoJob.run query_info cancelledAt
                    (FileInfoJob.mkJob pathList [] [] n))) d))
     = Some QDialog_reject).
Proof.
  intros Hfaithful Hclear.
  split.
  2:{ intros ->. rewrite onFileInfoJobFinished_effects. cbn [sender isCancelled].
      apply last_snoc. }
  destruct (run_queried query_info cancelledAt
              (FileInfoJob.mkJob pathList [] [] n)) as [Hr _].
  cbn [FileInfoJob.results_ FileInfoJob.paths_ FileInfoJob.polls app] in Hr.
  rewrite (queried_all cancelledAt n pathList Hclear) in Hr.
  assert (Hpaths : FileInfoJob.paths_
                     (FileInfoJob.run query_info cancelledAt
                        (FileInfoJob.mkJob pathList [] [] n))
                   = pathList).
  { unfold FileInfoJob.run. by rewrite foldl_visit. }
  rewrite last_effect_accept_iff. unfold sender.
  cbn [isCancelled paths files]. rewrite Hr, Hpaths.
  assert (Hinfo : ∀ k p, pathList !! k = Some p →
            file_info_for (query_info <$> pathList) k p = Some (query_info p)).
  { intros k p Hp. unfold file_info_for.
    rewrite list_lookup_fmap, Hp. simpl.
    rewrite decide_True; [done|].
    apply Hfaithful. by eapply list_elem_of_lookup_2. }
  assert (Hns : nothing_skipped (fileMode_ d) pathList (query_info <$> pathList)).
  { intros k p Hp Hnone. by rewrite (Hinfo k p Hp) in Hnone. }
  rewrite (nothing_skipped_ok_iff _ _ _ Hns).
  split.
  - intros [Hc Hall]. split; [done|]. intros p [k Hk]%list_elem_of_lookup_1.
    specialize (Hall k p Hk). unfold passes_validation in Hall.
    by rewrite (Hinfo k p Hk) in Hall.
  - intros [Hc Hall]. split; [done|]. intros k p Hk.
    unfold passes_validation. rewrite (Hinfo k p Hk).
    apply Hall. by eapply list_elem_of_lookup_2.
Qed.

End WithJob.

End FinishFacts.

(** ** What the calls do to the selection, the patterns and the outside *)

Section CallFacts.

Import FileDialog Notions.

Context `{Toolkit}.

Lemma foldl_appendFullPath_eq (names : list QString) (d : Dialog) :
  foldl appendFullPath d names
  = set_selectedFiles_ (selectedFiles_ (foldl appendFullPath d names)) d.
Proof.
  revert d. induction names as [|name names IH]; intros d.
  - by destruct d.
  - cbn [foldl]. etrans; [apply IH|]. reflexivity.
Qed.

(** [accept()] changes the selection, the Ok button and the log only. *)
Lemma accept_shape (d : Dialog) :
  accept d
  = perform
      (if QStr.isEmpty (fileName (ui d))
          && bool_decide (fileMode_ d ≠ Directory)
       then QMessageBox_critical "Error" "Please select a file"
       else FileInfoJob_runAsync (selectedFiles_ (accept d)))
      (with_ui
         (set_okEnabled
            (if QStr.isEmpty (fileName (ui d))
                && bool_decide (fileMode_ d ≠ Directory)
             then okEnabled (ui d) else false))
         (set_selectedFiles_ (selectedFiles_ (accept d)) d)).
Proof.
  unfold accept. cbv zeta.
  change (ui (set_selectedFiles_ [] d)) with (ui d).
  change (fileMode_ (set_selectedFiles_ [] d)) with (fileMode_ d).
  destruct (QStr.isEmpty (fileName (ui d))); cbn [andb].
  - destruct (decide (fileMode_ d = Directory)) as [Hd|Hd].
    + rewrite bool_decide_eq_false_2 by (by intros ?). done.
    + rewrite bool_decide_eq_true_2 by done. by destruct d as [[] ? ? ? ? ? ? ? ? ?].
  - match goal with
    | |- context [foldl appendFullPath ?d0 ?names] =>
        rewrite (foldl_appendFullPath_eq names d0)
    end.
    done.
Qed.

Lemma onFileInfoJobFinished_shape (job : FinishedJob) (d : Dialog) :
  currentNameFilter_ (onFileInfoJobFinished job d) = currentNameFilter_ d ∧
  patterns_ (onFileInfoJobFinished job d) = patterns_ d ∧
  (selectedFiles_ (onFileInfoJobFinished job d) = selectedFiles_ d ∨
   selectedFiles_ (onFileInfoJobFinished job d) = []).
Proof.
  destruct d as [u vm fm am dp sel filt suf pats log].
  unfold onFileInfoJobFinished.
  destruct (isCancelled job); [by auto|].
  destruct (QStr.isEmpty _); [|by auto].
  unfold doAccept. cbn. destruct sel as [|url [|url' urls]]; by auto.
Qed.

Lemma call_selection (d : Dialog) (c : Call) :
  c ≠ call_accept →
  selectedFiles_ (call d c) = selectedFiles_ d ∨ selectedFiles_ (call d c) = [].
Proof.
  intros Hc.
  destruct c as [| |job|directory|selFiles|action active|mode|mode|mode
                |label text|filter]; unfold call; try done; try (by left).
  - apply onFileInfoJobFinished_shape.
  - left. unfold onViewModeToggled. destruct active; [|done]. by destruct action.
  - left. by destruct label.
  - left. unfold selectNameFilter. by destruct (decide _).
Qed.

(** X13. Only [accept()] puts files into [selectedFiles_]: every other
    call leaves the selection as it is or empties it, and a dialog on
    which [accept()] was never called has no selected file. *)
Theorem selection_only_set_by_accept :
  (∀ d c, c ≠ call_accept →
          selectedFiles (call d c) = selectedFiles d ∨
          selectedFiles (call d c) = []) ∧
  (∀ dir cs, call_accept ∉ cs → selectedFiles (after_calls dir cs) = []).
Proof.
  split; [apply call_selection|].
  intros dir cs. unfold after_calls, selectedFiles.
  induction cs as [|c cs IH] using rev_ind; intros Hno.
  - by destruct dir.
  - rewrite foldl_app. cbn [foldl].
    rewrite not_elem_of_app in Hno. destruct Hno as [Hcs Hc].
    specialize (IH Hcs).
    destruct (call_selection (foldl call (FileDialog_new dir) cs) c) as [Heq|Heq].
    + intros ->. apply Hc. left.
    + by rewrite Heq.
    + done.
Qed.

(** The patterns [update()] stores only depend on the name filter. *)
Lemma update_patterns_of_filter (d1 d2 : Dialog) :
  currentNameFilter_ d1 = currentNameFilter_ d2 →
  patterns_ (update d1) = patterns_ (update d2).
Proof. intros Heq. unfold update. cbn [patterns_ set_patterns_]. by rewrite Heq. Qed.

(** The dialog has no patterns yet and no name filter, or its patterns
    are those of its name filter. *)
Lemma call_patterns (d : Dialog) (c : Call) :
  (currentNameFilter_ d = EmptyString ∧ patterns_ d = []) ∨
  patterns_ (update d) = patterns_ d →
  (currentNameFilter_ (call d c) = EmptyString ∧ patterns_ (call d c) = []) ∨
  patterns_ (update (call d c)) = patterns_ (call d c).
Proof.
  intros Hd.
  assert (Hkeep : ∀ d', currentNameFilter_ d' = currentNameFilter_ d →
                        patterns_ d' = patterns_ d →
            (currentNameFilter_ d' = EmptyString ∧ patterns_ d' = []) ∨
            patterns_ (update d') = patterns_ d').
  { intros d' Hf Hp. rewrite Hf, !Hp.
    by rewrite (update_patterns_of_filter d' d Hf). }
  destruct c as [| |job|directory|selFiles|action active|mode|mode|mode
                |label text|filter]; unfold call.
  - apply Hkeep; by rewrite accept_shape.
  - by apply Hkeep.
  - destruct (onFileInfoJobFinished_shape job d) as (Hf & Hp & _). by apply Hkeep.
  - by apply Hkeep.
  - by apply Hkeep.
  - unfold onViewModeToggled. destruct active; [|done].
    destruct action; by apply Hkeep.
  - by apply Hkeep.
  - by apply Hkeep.
  - by apply Hkeep.
  - destruct label; by apply Hkeep.
  - unfold selectNameFilter. destruct (decide _); [|done].
    right. cbn [patterns_ perform].
    by apply update_patterns_of_filter.
Qed.

(** X14. After construction and any sequence of calls, either no name
    filter was ever selected (the filter text is empty and there is no
    pattern), or the patterns are those [update()] makes of the current
    name filter.  Selecting a filter that differs from the current one
    makes it current; selecting the same filter again changes nothing. *)
Theorem patterns_follow_name_filter :
  (∀ dir cs,
     (currentNameFilter_ (after_calls dir cs) = EmptyString ∧
      patterns_ (after_calls dir cs) = []) ∨
     patterns_ (update (after_calls dir cs)) = patterns_ (after_calls dir cs)) ∧
  (∀ filter d, currentNameFilter_ (selectNameFilter filter d) = filter) ∧
  (∀ filter d,
     selectNameFilter filter (selectNameFilter filter d)
     = selectNameFilter filter d).
Proof.
  split; [|split].
  - intros dir cs. unfold after_calls.
    induction cs as [|c cs IH] using rev_ind.
    + left. by destruct dir.
    + rewrite foldl_app. cbn [foldl]. by apply call_patterns.
  - intros filter d. unfold selectNameFilter.
    destruct (decide (filter ≠ currentNameFilter_ d)) as [Hne|Heq]; [done|].
    by apply dec_stable in Heq.
  - intros filter d.
    assert (Hcur : currentNameFilter_ (selectNameFilter filter d) = filter).
    { unfold selectNameFilter.
      destruct (decide (filter ≠ currentNameFilter_ d)) as [Hne|Heq]; [done|].
      by apply dec_stable in Heq. }
    generalize dependent (selectNameFilter filter d). intros d' Hcur.
    unfold selectNameFilter. rewrite decide_False; [done|].
    rewrite Hcur. by intros Hx.
Qed.

(** X15. Until a name filter is selected there is no pattern, and
    selecting the empty filter on a new dialog changes nothing; with no
    pattern the filter accepts no row at all in the file mode
    [Directory], and exactly the directories in every other file mode. *)
Theorem no_pattern_shows_directories_only (dir : option FilePath)
    (info : FileInfo) :
  patterns_ (FileDialog_new dir) = [] ∧
  selectNameFilter EmptyString (FileDialog_new dir) = FileDialog_new dir ∧
  (∀ d, patterns_ d = [] →
        filterAcceptsRow d info
        = if decide (fileMode_ d = Directory) then false else isDir info).
Proof.
  split; [by destruct dir|]. split; [by destruct dir|].
  intros d Hp. unfold filterAcceptsRow. rewrite Hp.
  destruct (decide (fileMode_ d = Directory)); by destruct (isDir info).
Qed.

Lemma call_effects (d : Dialog) (c : Call) :
  ∃ new, effects (call d c) = effects d ++ new ∧
    (QDialog_accept ∈ new →
     ∃ job, c = call_onFileInfoJobFinished job ∧ isCancelled job = false ∧
            QStr.isEmpty (error (check (fileMode_ d) (paths job) (files job)))
            = true) ∧
    (∀ pathList, FileInfoJob_runAsync pathList ∈ new →
       c = call_accept ∧ pathList = selectedFiles (call d c) ∧
       okEnabled (ui (call d c)) = false).
Proof.
  assert (Hnone : ∃ new, effects d = effects d ++ new ∧
    (QDialog_accept ∈ new →
     ∃ job, c = call_onFileInfoJobFinished job ∧ isCancelled job = false ∧
            QStr.isEmpty (error (check (fileMode_ d) (paths job) (files job)))
            = true) ∧
    (∀ pathList, FileInfoJob_runAsync pathList ∈ new →
       c = call_accept ∧ pathList = selectedFiles d ∧
       okEnabled (ui d) = false)).
  { exists []. rewrite app_nil_r. split; [done|].
    split; [by intros ?%elem_of_nil|by intros ? ?%elem_of_nil]. }
  destruct c as [| |job|directory|selFiles|action active|mode|mode|mode
                |label text|filter]; unfold call.
  - pose proof (f_equal effects (accept_shape d)) as Heff.
    pose proof (f_equal (λ x, okEnabled (ui x)) (accept_shape d)) as Hok.
    cbn [effects perform with_ui set_selectedFiles_ ui okEnabled set_okEnabled]
      in Heff, Hok.
    eexists. split; [exact Heff|]. split.
    + intros Hin%list_elem_of_singleton. by destruct (_ && _).
    + intros pathList Hin%list_elem_of_singleton.
      split; [done|]. unfold selectedFiles.
      destruct (QStr.isEmpty (fileName (ui d)) && bool_decide (fileMode_ d ≠ Directory))
        eqn:Hearly; [done|].
      injection Hin as ->. done.
  - exists [QDialog_reject]. split; [done|]. split.
    + by intros ?%list_elem_of_singleton.
    + by intros ? ?%list_elem_of_singleton.
  - rewrite onFileInfoJobFinished_effects.
    destruct (isCancelled job) eqn:Hc.
    + eexists. split; [reflexivity|]. split.
      * by intros ?%list_elem_of_singleton.
      * by intros ? ?%list_elem_of_singleton.
    + destruct (QStr.isEmpty _) eqn:Hok.
      * rewrite doAccept_effects. eexists. split; [reflexivity|]. split.
        -- intros _. by exists job.
        -- intros pathList [?|Hin]%elem_of_cons; [done|].
           apply elem_of_app in Hin as [Hin|Hin%list_elem_of_singleton]; [|done].
           destruct (selectedFiles_ d) as [|url [|url' urls]];
             try by apply elem_of_nil in Hin.
           by apply list_elem_of_singleton in Hin.
      * eexists. split; [reflexivity|]. split.
        -- by intros ?%list_elem_of_singleton.
        -- by intros ? ?%list_elem_of_singleton.
  - exists [directoryEntered]. split; [done|]. split.
    + by intros ?%list_elem_of_singleton.
    + by intros ? ?%list_elem_of_singleton.
  - exact Hnone.
  - unfold onViewModeToggled. destruct active; [|exact Hnone].
    destruct action; exact Hnone.
  - exact Hnone.
  - exact Hnone.
  - exact Hnone.
  - destruct label; exact Hnone.
  - unfold selectNameFilter. destruct (decide _); [|exact Hnone].
    exists [proxyModel_invalidate; filterSelected filter].
    split; [cbn [effects perform]; by rewrite <- app_assoc|]. split.
    + intros [?|?%list_elem_of_singleton]%elem_of_cons; done.
    + intros ? [?|?%list_elem_of_singleton]%elem_of_cons; done.
Qed.

(** X16. Each call only adds to what the dialog has done to the
    outside.  [QDialog::accept] is added by the slot on a finished job
    only, and only when the job was not cancelled and the check left
    [error] empty; a job is started by [accept()] only, on exactly the
    selected files, and with the Ok button disabled. *)
Theorem accepted_only_after_check (d : Dialog) (c : Call) :
  ∃ new, effects (call d c) = effects d ++ new ∧
    (QDialog_accept ∈ new →
     ∃ job, c = call_onFileInfoJobFinished job ∧ isCancelled job = false ∧
            QStr.isEmpty (error (check (fileMode_ d) (paths job) (files job)))
            = true) ∧
    (∀ pathList, FileInfoJob_runAsync pathList ∈ new →
       c = call_accept ∧ pathList = selectedFiles (call d c) ∧
       okEnabled (ui (call d c)) = false).
Proof. apply call_effects. Qed.

(** X17. The text of one label is not changed by setting another:
    [labelText] of a label after [setLabelText] on a different label is
    what it was before. *)
Theorem setLabelText_other_label (label label' : DialogLabel) (t : QString)
    (d : Dialog) :
  label ≠ label' →
  labelText label' (setLabelText label t d) = labelText label' d.
Proof. intros Hne. by destruct label, label'. Qed.

End CallFacts.

(** ** The patterns [update()] makes of a name filter *)

Section UpdateFacts.

Import FileDialog Notions.

Lemma index_char_found (ch : ascii) (s1 t : QString) :
  occurs ch s1 = false →
  String.index 0 (String ch EmptyString) (s1 +:+ String ch t)
  = Some (String.length s1).
Proof.
  induction s1 as [|a s1 IH]; intros Hocc.
  - rewrite append_nil_l. simpl.
    destruct (ascii_dec ch ch); [|done]. by destruct t.
  - simpl in Hocc. apply orb_false_elim in Hocc as [Ha Hs].
    rewrite append_cons. simpl.
    destruct (ascii_dec ch a) as [->|Hne].
    + by rewrite Ascii.eqb_refl in Ha.
    + by rewrite (IH Hs).
Qed.

Lemma index_skip (s0 : QString) (n : nat) (pat t : QString) :
  String.index (String.length s0 + n) pat (s0 +:+ t)
  = (λ k, String.length s0 + k) <$> String.index n pat t.
Proof.
  induction s0 as [|b s0 IH].
  - rewrite append_nil_l. simpl. by destruct (String.index n pat t).
  - rewrite append_cons. simpl. rewrite IH.
    by destruct (String.index n pat t).
Qed.

Lemma substring_skip (s0 : QString) (n m : nat) (t : QString) :
  String.substring (String.length s0 + n) m (s0 +:+ t) = String.substring n m t.
Proof.
  induction s0 as [|b s0 IH]; [done|].
  rewrite append_cons. simpl. apply IH.
Qed.

Lemma foldl_snoc_wildcards (globs : list QString) : ∀ acc,
  foldl (λ patterns glob, patterns ++ [mkQRegExp glob CaseInsensitive Wildcard])
        acc globs
  = acc ++ wildcards globs.
Proof.
  induction globs as [|g globs IH]; intros acc; simpl.
  - by rewrite app_nil_r.
  - by rewrite IH, <- app_assoc.
Qed.

Lemma update_patterns_exact (d : Dialog) :
  patterns_ (update d)
  = wildcards (QStr.split " " (QStr.simplified (filter_text (currentNameFilter_ d)))).
Proof.
  unfold update. cbn [patterns_ set_patterns_].
  by rewrite foldl_snoc_wildcards.
Qed.

Lemma filter_text_between (desc inner rest : QString) :
  occurs "(" desc = false →
  occurs ")" inner = false →
  filter_text (desc +:+ String "(" (inner +:+ String ")" rest)) = inner.
Proof.
  intros Hdesc Hinner. unfold filter_text, QStr.indexOf.
  rewrite (index_char_found _ _ _ Hdesc).
  rewrite bool_decide_eq_true_2 by lia. cbv zeta.
  replace (Z.to_nat (Z.of_nat (String.length desc) + 1))
    with (String.length (desc +:+ "(") + 0)
    by (rewrite length_append; simpl; lia).
  replace (desc +:+ String "(" (inner +:+ String ")" rest))
    with ((desc +:+ "(") +:+ inner +:+ String ")" rest)
    by (by rewrite append_assoc).
  rewrite index_skip, (index_char_found _ _ _ Hinner). cbn [fmap option_fmap option_map].
  rewrite bool_decide_eq_false_2 by lia.
  unfold QStr.mid.
  rewrite length_append. cbn [String.length].
  replace (Z.of_nat (String.length desc + 1 + String.length inner)
           - (Z.of_nat (String.length desc) + 1))%Z
    with (Z.of_nat (String.length inner)) by lia.
  destruct (Z.ltb_spec (Z.of_nat (String.length inner)) 0); [lia|].
  rewrite Nat2Z.id.
  replace (Z.to_nat (Z.of_nat (String.length desc) + 1))
    with (String.length (desc +:+ "(") + 0)
    by (rewrite length_append; simpl; lia).
  rewrite substring_skip. apply substring_prefix.
Qed.

Lemma filter_text_unclosed (desc inner : QString) :
  occurs "(" desc = false →
  occurs ")" inner = false →
  filter_text (desc +:+ String "(" inner) = inner.
Proof.
  intros Hdesc Hinner. unfold filter_text, QStr.indexOf.
  rewrite (index_char_found _ _ _ Hdesc).
  rewrite bool_decide_eq_true_2 by lia. cbv zeta.
  replace (Z.to_nat (Z.of_nat (String.length desc) + 1))
    with (String.length (desc +:+ "(") + 0)
    by (rewrite length_append; simpl; lia).
  replace (desc +:+ String "(" inner) with ((desc +:+ "(") +:+ inner)
    by (by rewrite append_assoc).
  rewrite index_skip, (index_char_none _ _ _ Hinner). cbn [fmap option_fmap option_map].
  rewrite bool_decide_eq_true_2 by done.
  unfold QStr.mid.
  rewrite !length_append. cbn [String.length].
  replace (Z.of_nat (String.length desc + 1 + String.length inner)
           - (Z.of_nat (String.length desc) + 1))%Z
    with (Z.of_nat (String.length inner)) by lia.
  destruct (Z.ltb_spec (Z.of_nat (String.length inner)) 0); [lia|].
  rewrite Nat2Z.id.
  replace (Z.to_nat (Z.of_nat (String.length desc) + 1))
    with (String.length (desc +:+ "(") + 0)
    by (rewrite length_append; simpl; lia).
  rewrite substring_skip.
  rewrite <- (append_nil_r inner) at 2. apply substring_prefix.
Qed.

(** X18. A name filter with a description and globs between
    parentheses: [update()] makes the patterns from the text between the
    first opening parenthesis and the next closing one; the description
    and whatever follows the closing parenthesis are ignored. *)
Theorem update_reads_between_parentheses (d : Dialog)
    (desc inner rest : QString) :
  currentNameFilter_ d = desc +:+ String "(" (inner +:+ String ")" rest) →
  occurs "(" desc = false →
  occurs ")" inner = false →
  patterns_ (update d) = wildcards (QStr.split " " (QStr.simplified inner)).
Proof.
  intros Hf Hdesc Hinner.
  by rewrite update_patterns_exact, Hf, filter_text_between.
Qed.

(** X19. A name filter whose opening parenthesis is never closed:
    [update()] makes the patterns from all the text after the opening
    parenthesis. *)
Theorem update_reads_to_end_when_unclosed (d : Dialog) (desc inner : QString) :
  currentNameFilter_ d = desc +:+ String "(" inner →
  occurs "(" desc = false →
  occurs ")" inner = false →
  patterns_ (update d) = wildcards (QStr.split " " (QStr.simplified inner)).
Proof.
  intros Hf Hdesc Hinner.
  by rewrite update_patterns_exact, Hf, filter_text_unclosed.
Qed.

(** X20. A name filter without an opening parenthesis: [update()] makes
    the patterns from the whole text. *)
Theorem update_reads_whole_text_without_parenthesis (d : Dialog) :
  occurs "(" (currentNameFilter_ d) = false →
  patterns_ (update d)
  = wildcards (QStr.split " " (QStr.simplified (currentNameFilter_ d))).
Proof.
  intros Hocc. rewrite update_patterns_exact. unfold filter_text.
  rewrite (indexOf_none _ _ _ Hocc). done.
Qed.

End UpdateFacts.

Section GlobFacts.

Import FileDialog Notions.

Lemma pieces_nonempty (sep : ascii → bool) (s : QString) : QStr.pieces sep s ≠ [].
Proof.
  destruct s as [|a s]; [done|]. simpl.
  destruct (sep a); [done|]. by destruct (QStr.pieces sep s).
Qed.







End GlobFacts.

(** ** Activating a row of the view *)

Section ActivationFacts.

Import FileDialog Activation.

Context `{Toolkit}.

Variable selectFilePath : FilePath → Dialog → Dialog.

Abbreviation onFileClicked' := (onFileClicked selectFilePath).

(** X22. Activating a directory enters it and does nothing else to the
    outside: the current directory becomes the directory's path,
    [directoryEntered] is emitted, no job is started and no message box
    shown, the selection and the Ok button are left alone, and the
    file-name entry is cleared exactly in the file mode [Directory]. *)
Theorem activating_directory_enters_it (f : FileInfo) (d : Dialog) :
  isDir f = true →
  directoryPath_ (onFileClicked' ActivatedClick (Some f) d) = path f ∧
  effects (onFileClicked' ActivatedClick (Some f) d)
    = effects d ++ [directoryEntered] ∧
  selectedFiles (onFileClicked' ActivatedClick (Some f) d) = selectedFiles d ∧
  okEnabled (ui (onFileClicked' ActivatedClick (Some f) d)) = okEnabled (ui d) ∧
  fileName (ui (onFileClicked' ActivatedClick (Some f) d))
    = (if decide (fileMode_ d = Directory) then EmptyString
       else fileName (ui d)).
Proof.
  intros Hdir. unfold onFileClicked. rewrite Hdir. cbn.
  by destruct (decide (fileMode_ d = Directory)).
Qed.

(** X23. A click that is not an activation, a click on no file, and the
    activation of a file that is not a directory in the file mode
    [Directory] leave the dialog as it is. *)
Theorem ignored_clicks_change_nothing (type : ClickType)
    (file : option FileInfo) (d : Dialog) :
  type ≠ ActivatedClick ∨ file = None ∨
  (∃ f, file = Some f ∧ isDir f = false ∧ fileMode_ d = Directory) →
  onFileClicked' type file d = d.
Proof.
  unfold onFileClicked.
  intros [Htype|[->|(f & -> & Hf & Hmode)]].
  - destruct file; [|done]. by rewrite decide_False.
  - done.
  - rewrite Hf. destruct (decide (type = ActivatedClick)); [|done].
    rewrite decide_False; [done|]. by intros Hx.
Qed.

End ActivationFacts.

(** ** The lists of name filters *)

Section FilterListFacts.

Import Filters.

(** X24. [setNameFilters] never leaves [nameFilters_] empty: it stores
    the argument, or the one default filter when the argument is empty.
    The combo box is refilled with the argument itself, so with an empty
    argument it has no item although [nameFilters_] has one. *)
Theorem setNameFilters_default (filters : list QString) (st : FilterLists) :
  nameFilters_ (setNameFilters filters st) ≠ [] ∧
  (filters ≠ [] → nameFilters_ (setNameFilters filters st) = filters) ∧
  nameFilters_ (setNameFilters [] st) = ["All Files (*)"] ∧
  fileTypeCombo_items (setNameFilters filters st) = filters ∧
  mimeTypeFilters_ (setNameFilters filters st) = mimeTypeFilters_ st.
Proof. by destruct filters. Qed.

Variable mime_comment : QString → QString.
Variable mime_suffixes : QString → list QString.

Lemma set_last_snoc (c a : ascii) (s : QString) :
  set_last c (s +:+ String a EmptyString) = s +:+ String c EmptyString.
Proof.
  induction s as [|b s IH]; [done|].
  rewrite !append_cons. cbn [set_last]. rewrite IH.
  by destruct s.
Qed.

Lemma foldl_globs (suffixes : list QString) : ∀ acc,
  suffixes ≠ [] →
  foldl (λ nameFilter suffix, ((nameFilter +:+ "*.") +:+ suffix) +:+ " ")
        acc suffixes
  = (acc +:+ String.concat " " ((λ suffix, "*." +:+ suffix) <$> suffixes))
    +:+ " ".
Proof.
  induction suffixes as [|x suffixes IH]; intros acc Hne; [done|].
  cbn [foldl]. destruct suffixes as [|y suffixes].
  - cbn [foldl fmap list_fmap String.concat]. by rewrite !append_assoc.
  - rewrite IH by done.
    change (String.concat " " ((λ suffix, "*." +:+ suffix) <$> x :: y :: suffixes))
      with (("*." +:+ x) +:+ " "
            +:+ String.concat " " ((λ suffix, "*." +:+ suffix) <$> y :: suffixes)).
    by rewrite !append_assoc.
Qed.

(** X25. The name filter [setMimeTypeFilters] builds for a MIME type
    with suffixes is the comment of the type, directly followed by the
    globs [*.suffix] separated by one space, and a closing parenthesis:
    no opening parenthesis and no space are put between the comment and
    the first glob.  For a type without suffixes it is the comment. *)
Theorem mimeNameFilter_text (filter : QString) :
  mimeNameFilter mime_comment mime_suffixes filter
  = match mime_suffixes filter with
    | [] => mime_comment filter
    | suffixes =>
        (mime_comment filter
         +:+ String.concat " " ((λ suffix, "*." +:+ suffix) <$> suffixes))
        +:+ ")"
    end.
Proof.
  unfold mimeNameFilter.
  destruct (mime_suffixes filter) as [|x suffixes] eqn:Hs; [done|].
  cbv zeta. rewrite foldl_globs by done.
  apply set_last_snoc.
Qed.

End FilterListFacts.

(** ** The further properties at the session *)

Section SampleFacts.

Import FileDialog Notions Activation Session Samples.

Lemma run_uncancelled_answers_every_path_witness :
  FileInfoJob.results_ (FileInfoJob.run query_info never_cancelled job4)
    = FileInfoJob.results_ job4 ++ (query_info <$> FileInfoJob.paths_ job4) ∧
  FileInfoJob.results_ (FileInfoJob.run query_info never_cancelled job4) !! 1
    = Some (query_info sub).
Proof.
  destruct (run_uncancelled_answers_every_path query_info never_cancelled job4)
    as (Hr & _ & Hat); [done|].
  split; [exact Hr|]. exact (Hat 1 sub eq_refl).
Defined.

Lemma run_all_cancelled_only_finishes_witness :
  FileInfoJob.results_ (FileInfoJob.run query_info always_cancelled job4)
    = FileInfoJob.results_ job4 ∧
  FileInfoJob.emitted (FileInfoJob.run query_info always_cancelled job4)
    = FileInfoJob.emitted job4 ++ [FileInfoJob.finished].
Proof.
  apply (run_all_cancelled_only_finishes query_info always_cancelled job4).
  done.
Defined.

Lemma nothing_skipped_existing :
  nothing_skipped ExistingFile [notes_txt; sub] [notes_info; sub_info].
Proof. intros k p _ _. discriminate. Defined.

Lemma check_ok_iff_all_pass_when_nothing_skipped_witness :
  nothing_skipped ExistingFile [notes_txt; sub] [notes_info; sub_info] ∧
  (QStr.isEmpty
     (error (@check Desktop.toolkit ExistingFile [notes_txt; sub]
               [notes_info; sub_info])) = true ↔
   ∀ k p, [notes_txt; sub] !! k = Some p →
          passes_validation ExistingFile [notes_info; sub_info] k p = true).
Proof.
  split; [exact nothing_skipped_existing|].
  apply (@check_ok_iff_all_pass_when_nothing_skipped Desktop.toolkit).
  exact nothing_skipped_existing.
Defined.

Lemma check_reports_first_failure_witness :
  error (@check Desktop.toolkit ExistingFile [notes_txt; sub]
           [notes_info; sub_info])
    = QStr.arg1 EmptyString (quoted sub) " is not a file" ∧
  visited (@check Desktop.toolkit ExistingFile [notes_txt; sub]
             [notes_info; sub_info]) = [0; 1].
Proof.
  apply (@check_reports_first_failure Desktop.toolkit ExistingFile
           [notes_txt; sub] [notes_info; sub_info] 1 sub).
  - exact nothing_skipped_existing.
  - reflexivity.
  - reflexivity.
  - intros j q Hj Hq. destruct j as [|j]; [|lia].
    injection Hq as <-. reflexivity.
Defined.

Lemma accept_plain_name_witness :
  selectedFiles (@accept Desktop.toolkit typed_notes)
    = ["file:///tmp/notes.txt"] ∧
  effects (@accept Desktop.toolkit typed_notes)
    = effects typed_notes
      ++ [FileInfoJob_runAsync (selectedFiles (@accept Desktop.toolkit typed_notes))] ∧
  okEnabled (ui (@accept Desktop.toolkit typed_notes)) = false.
Proof.
  apply (@accept_plain_name Desktop.toolkit typed_notes); reflexivity.
Defined.

Lemma accept_empty_name_selects_directory_witness :
  selectedFiles (@accept Desktop.toolkit choosing_folder) = ["file:///tmp"] ∧
  effects (@accept Desktop.toolkit choosing_folder)
    = effects choosing_folder ++ [FileInfoJob_runAsync ["file:///tmp"]] ∧
  okEnabled (ui (@accept Desktop.toolkit choosing_folder)) = false.
Proof.
  apply (@accept_empty_name_selects_directory Desktop.toolkit choosing_folder);
    reflexivity.
Defined.

Lemma select_one_then_accept_witness :
  selectedFiles
    (@accept Desktop.toolkit (@onSelectionChanged Desktop.toolkit [notes_info] opened))
    = ["file:///tmp/notes.txt"].
Proof.
  apply (@select_one_then_accept Desktop.toolkit notes_info opened); reflexivity.
Defined.

Lemma select_many_then_accept_witness :
  selectedFiles
    (@accept Desktop.toolkit
       (@onSelectionChanged Desktop.toolkit [notes_info; sub_info; other_info] opened))
    = ["file:///tmp/notes.txt"; "file:///tmp/other.txt"].
Proof.
  apply (@select_many_then_accept Desktop.toolkit
           [notes_info; sub_info; other_info] opened).
  - cbn [length]. lia.
  - discriminate.
  - reflexivity.
Defined.

Lemma finished_ok_announces_selection_witness :
  effects answered
    = effects waiting ++ [filesSelected [new_txt; sub]; QDialog_accept] ∧
  selectedFiles answered = [new_txt; sub].
Proof.
  apply (@finished_ok_announces_selection Desktop.toolkit
           (sender false job_done) waiting); reflexivity.
Defined.

Lemma uncancelled_job_accepted_iff_types_ok_witness :
  (last (effects
           (@onFileInfoJobFinished Desktop.toolkit
              (sender false
                 (FileInfoJob.run query_info never_cancelled
                    (FileInfoJob.mkJob [notes_txt; sub] [] [] 0))) opened))
     = Some QDialog_accept ↔
   false = false ∧
   ∀ p, p ∈ [notes_txt; sub] → type_ok (fileMode_ opened) (query_info p) = true) ∧
  last (effects
          (@onFileInfoJobFinished Desktop.toolkit
             (sender true
                (FileInfoJob.run query_info never_cancelled
                   (FileInfoJob.mkJob [notes_txt; sub] [] [] 0))) opened))
    = Some QDialog_reject.
Proof.
  assert (Hfaithful : ∀ p, p ∈ [notes_txt; sub] → path (query_info p) = p).
  { intros p [->|Hp]%elem_of_cons; [reflexivity|].
    apply list_elem_of_singleton in Hp as ->. reflexivity. }
  assert (Hclear : ∀ i, i < length [notes_txt; sub] → never_cancelled (0 + i) = false)
    by reflexivity.
  split.
  - exact (proj1 (@uncancelled_job_accepted_iff_types_ok Desktop.toolkit
                    query_info never_cancelled [notes_txt; sub] 0 false opened
                    Hfaithful Hclear)).
  - exact (proj2 (@uncancelled_job_accepted_iff_types_ok Desktop.toolkit
                    query_info never_cancelled [notes_txt; sub] 0 true opened
                    Hfaithful Hclear) eq_refl).
Defined.

Lemma selection_only_set_by_accept_witness :
  selectedFiles
    (@after_calls Desktop.toolkit (Some "file:///tmp")
       [call_setFileMode Directory; call_onSelectionChanged [sub_info];
        call_reject]) = [].
Proof.
  apply (proj2 (@selection_only_set_by_accept Desktop.toolkit)).
  intros Hin.
  repeat (apply elem_of_cons in Hin as [Hin|Hin]; [discriminate|]).
  by apply elem_of_nil in Hin.
Defined.

Lemma no_pattern_shows_directories_only_witness :
  @filterAcceptsRow Desktop.toolkit opened notes_info = false ∧
  @filterAcceptsRow Desktop.toolkit opened sub_info = true.
Proof.
  split.
  - apply (proj2 (proj2 (@no_pattern_shows_directories_only Desktop.toolkit
                           (Some "file:///tmp") notes_info)) opened eq_refl).
  - apply (proj2 (proj2 (@no_pattern_shows_directories_only Desktop.toolkit
                           (Some "file:///tmp") sub_info)) opened eq_refl).
Defined.

Lemma setLabelText_other_label_witness :
  labelText FileName (setLabelText LookIn "Folder:" opened) = "File name:".
Proof.
  apply (setLabelText_other_label LookIn FileName "Folder:" opened).
  discriminate.
Defined.

Lemma update_reads_between_parentheses_witness :
  patterns_ (update folders_only) = wildcards ["*.txt"].
Proof.
  apply (update_reads_between_parentheses folders_only "Text files " "*.txt"
           EmptyString); reflexivity.
Defined.

Lemma update_reads_to_end_when_unclosed_witness :
  patterns_ (update images_unclosed) = wildcards ["*.png"; "*.jpg"].
Proof.
  apply (update_reads_to_end_when_unclosed images_unclosed "Images "
           "*.png *.jpg"); reflexivity.
Defined.

Lemma update_reads_whole_text_without_parenthesis_witness :
  patterns_ (update png_only) = wildcards ["*.png"].
Proof.
  apply (update_reads_whole_text_without_parenthesis png_only). reflexivity.
Defined.


Lemma activating_directory_enters_it_witness :
  directoryPath_
    (@onFileClicked Desktop.toolkit quiet_select ActivatedClick (Some sub_info)
       typed) = sub ∧
  effects
    (@onFileClicked Desktop.toolkit quiet_select ActivatedClick (Some sub_info)
       typed) = effects typed ++ [directoryEntered].
Proof.
  destruct (@activating_directory_enters_it Desktop.toolkit quiet_select
              sub_info typed eq_refl) as (Hdir & Heff & _).
  split; [exact Hdir|exact Heff].
Defined.

Lemma ignored_clicks_change_nothing_witness :
  @onFileClicked Desktop.toolkit quiet_select OtherClick (Some notes_info) typed
    = typed ∧
  @onFileClicked Desktop.toolkit quiet_select ActivatedClick None typed = typed ∧
  @onFileClicked Desktop.toolkit quiet_select ActivatedClick (Some notes_info)
    choosing_folder = choosing_folder.
Proof.
  split; [|split].
  - apply (@ignored_clicks_change_nothing Desktop.toolkit quiet_select).
    left. discriminate.
  - apply (@ignored_clicks_change_nothing Desktop.toolkit quiet_select).
    right. left. reflexivity.
  - apply (@ignored_clicks_change_nothing Desktop.toolkit quiet_select).
    right. right. exists notes_info. repeat split; reflexivity.
Defined.

Lemma setNameFilters_default_witness :
  Filters.nameFilters_
    (Filters.setNameFilters ["Text files (*.txt)"] (Filters.mkFilterLists [] [] []))
    = ["Text files (*.txt)"].
Proof.
  apply (proj1 (proj2 (setNameFilters_default
                         ["Text files (*.txt)"] (Filters.mkFilterLists [] [] [])))).
  discriminate.
Defined.

(** The check as the specification words it fails at the session: the
    entries 0 and 1 have no file info, the body runs at the indices 0
    and 2, so index 2, the one after entry 1, is validated. *)
Lemma entry_after_skipped_one_is_validated :
  three_paths !! 1 = Some other_txt ∧
  file_info_for three_files 1 other_txt = None ∧
  visited (@check Desktop.toolkit AnyFile three_paths three_files) = [0; 2] ∧
  ¬ @next_never_validated Desktop.toolkit AnyFile three_paths three_files 1.
Proof.
  repeat split; try reflexivity.
  intros Hnever.
  apply (Hnever other_txt eq_refl eq_refl eq_refl).
  right. left.
Qed.


End SampleFacts.
